(** * Seeding scripts of mangalm_sales_assist: a shallow embedding

    The repository holds two batch scripts over one CSV export:
    [create_stores.py] (customer names to store rows, printed as SQL) and
    [populate_all_tables.py] (item names to products, invoice rows to invoice
    items, a substring matcher against existing orders, and one randomized
    SQL statement).  Both are embedded below as executable functions; the
    theorems at the end of the file relate them to the written
    specification. *)

From Stdlib Require Import ZArith QArith Lqa String Ascii.
From stdpp Require Import base decidable list numbers option sorting gmap.

Local Open Scope Z_scope.

#[local] Set Warnings "-clear-no-such-hyp".

(** ** Python values *)

(** A Python [str] is a sequence of Unicode code points. *)
Abbreviation str := (list N).

(** ASCII literal of the source text, as a [str]. *)
Definition lit (s : string) : str := N_of_ascii <$> list_ascii_of_string s.

(** The exceptions the two scripts can raise outside a [try]. *)
Inductive exn :=
| AttributeError
| UnicodeEncodeError
| IndexError
| KeyError
| ValueError
| TypeError.

Inductive result (A : Type) :=
| Ok (a : A)
| Raise (e : exn).
Arguments Ok {A} a.
Arguments Raise {A} e.

#[global] Instance result_ret : MRet result := λ A a, Ok a.
#[global] Instance result_bind : MBind result := λ A B k r,
  match r with
  | Ok a => k a
  | Raise e => Raise e
  end.

(** [try: body except: fallback] with a bare [except]. *)
Definition try_except {A} (body : result A) (fallback : A) : A :=
  match body with
  | Ok a => a
  | Raise _ => fallback
  end.

(** ** String operations *)

Module Str.

Local Open Scope N_scope.

(** [s.startswith(p)] *)
Fixpoint startswith (p s : str) : bool :=
  match p, s with
  | [], _ => true
  | _ :: _, [] => false
  | a :: p', b :: s' => if N.eqb a b then startswith p' s' else false
  end.

(** [sub in s] *)
Fixpoint contains (sub s : str) : bool :=
  startswith sub s ||
  match s with
  | [] => false
  | _ :: s' => contains sub s'
  end.

(** The containment relation [contains] decides. *)
Definition substring (sub s : str) : Prop :=
  ∃ pre post, s = pre ++ sub ++ post.

(** Truth value of a string: [if s:]. *)
Definition nonempty (s : str) : bool :=
  match s with [] => false | _ :: _ => true end.

(** [c.isspace()]: the code points CPython classifies as whitespace. *)
Definition isspace (c : N) : bool :=
  ((0x09 <=? c) && (c <=? 0x0D)) || ((0x1C <=? c) && (c <=? 0x20)) ||
  (c =? 0x85) || (c =? 0xA0) || (c =? 0x1680) ||
  ((0x2000 <=? c) && (c <=? 0x200A)) || (c =? 0x2028) || (c =? 0x2029) ||
  (c =? 0x202F) || (c =? 0x205F) || (c =? 0x3000).

Fixpoint lstrip (s : str) : str :=
  match s with
  | [] => []
  | c :: s' => if isspace c then lstrip s' else s
  end.

Definition rstrip (s : str) : str := reverse (lstrip (reverse s)).

(** [s.strip()] *)
Definition strip (s : str) : str := rstrip (lstrip s).

(** Lower-casing of the ASCII letters.  The only non-ASCII code points whose
    Unicode lower-case form contains an ASCII letter are U+212A (to "k") and
    U+0130 (to "i" followed by U+0307); neither can complete one of the five
    keywords tested on a lower-cased name, so the tests below agree with
    [str.lower]. *)
Definition lower (s : str) : str :=
  (λ c, if (0x41 <=? c) && (c <=? 0x5A) then c + 0x20 else c) <$> s.

(** [s.replace(old, new)] for a non-empty [old]: left to right, without
    overlap.  [skip] counts the code points of a match still to be dropped. *)
Fixpoint replace_from (old new : str) (skip : nat) (s : str) : str :=
  match s with
  | [] => []
  | c :: s' =>
      match skip with
      | S k => replace_from old new k s'
      | O =>
          if startswith old s then new ++ replace_from old new (length old - 1)%nat s'
          else c :: replace_from old new 0 s'
      end
  end.

Definition replace (old new s : str) : str := replace_from old new 0 s.

(** [s.split()]: maximal runs of non-whitespace. [cur] is the run being read,
    reversed. *)
Fixpoint split_from (cur : str) (s : str) : list str :=
  match s with
  | [] => match cur with [] => [] | _ => [reverse cur] end
  | c :: s' =>
      if isspace c then
        match cur with
        | [] => split_from [] s'
        | _ => reverse cur :: split_from [] s'
        end
      else split_from (c :: cur) s'
  end.

Definition split (s : str) : list str := split_from [] s.

(** [a <= b] on strings: lexicographic on code points. *)
Fixpoint leb (a b : str) : bool :=
  match a, b with
  | [], _ => true
  | _ :: _, [] => false
  | x :: a', y :: b' => (x <? y) || ((x =? y) && leb a' b')
  end.

Definition le (a b : str) : Prop := leb a b = true.

(** [a < b] on strings. *)
Definition lt (a b : str) : Prop := le a b ∧ a ≠ b.

#[global] Instance le_dec a b : Decision (le a b).
Proof. unfold le. apply _. Defined.

(** Every code point is a Unicode scalar value: what decoding a UTF-8 file
    yields. *)
Definition scalar (c : N) : bool :=
  ((c <? 0xD800) || (0xDFFF <? c)) && (c <? 0x110000).

Definition decoded (s : str) : bool := forallb scalar s.

Local Open Scope Z_scope.

(** [s.encode()]: UTF-8.  Surrogates cannot be encoded. *)
Definition encode_point (c : N) : result (list Z) :=
  let z := Z.of_N c in
  if z <? 0x80 then Ok [z]
  else if z <? 0x800 then
    Ok [Z.lor 0xC0 (Z.shiftr z 6); Z.lor 0x80 (Z.land z 0x3F)]
  else if z <? 0x10000 then
    if (0xD800 <=? z) && (z <=? 0xDFFF) then Raise UnicodeEncodeError
    else Ok [Z.lor 0xE0 (Z.shiftr z 12);
             Z.lor 0x80 (Z.land (Z.shiftr z 6) 0x3F);
             Z.lor 0x80 (Z.land z 0x3F)]
  else if z <? 0x110000 then
    Ok [Z.lor 0xF0 (Z.shiftr z 18);
        Z.lor 0x80 (Z.land (Z.shiftr z 12) 0x3F);
        Z.lor 0x80 (Z.land (Z.shiftr z 6) 0x3F);
        Z.lor 0x80 (Z.land z 0x3F)]
  else Raise UnicodeEncodeError.

Fixpoint encode (s : str) : result (list Z) :=
  match s with
  | [] => Ok []
  | c :: s' => b ← encode_point c; bs ← encode s'; Ok (b ++ bs)
  end.

End Str.

(** ** MD5 ([hashlib.md5(b).digest()], RFC 1321)

    Bytes are integers in [0, 256); words are integers in [0, 2^32). *)

Module MD5.

Definition add32 (a b : Z) : Z := (a + b) mod 2 ^ 32.

Definition not32 (a : Z) : Z := Z.lxor a 0xFFFFFFFF.

Definition rotl32 (x c : Z) : Z :=
  Z.lor (Z.shiftl x c mod 2 ^ 32) (Z.shiftr x (32 - c)).

(** floor(2^32 * |sin(i + 1)|) *)
Definition K : list Z :=
  [ 0xd76aa478; 0xe8c7b756; 0x242070db; 0xc1bdceee;
    0xf57c0faf; 0x4787c62a; 0xa8304613; 0xfd469501;
    0x698098d8; 0x8b44f7af; 0xffff5bb1; 0x895cd7be;
    0x6b901122; 0xfd987193; 0xa679438e; 0x49b40821;
    0xf61e2562; 0xc040b340; 0x265e5a51; 0xe9b6c7aa;
    0xd62f105d; 0x02441453; 0xd8a1e681; 0xe7d3fbc8;
    0x21e1cde6; 0xc33707d6; 0xf4d50d87; 0x455a14ed;
    0xa9e3e905; 0xfcefa3f8; 0x676f02d9; 0x8d2a4c8a;
    0xfffa3942; 0x8771f681; 0x6d9d6122; 0xfde5380c;
    0xa4beea44; 0x4bdecfa9; 0xf6bb4b60; 0xbebfbc70;
    0x289b7ec6; 0xeaa127fa; 0xd4ef3085; 0x04881d05;
    0xd9d4d039; 0xe6db99e5; 0x1fa27cf8; 0xc4ac5665;
    0xf4292244; 0x432aff97; 0xab9423a7; 0xfc93a039;
    0x655b59c3; 0x8f0ccc92; 0xffeff47d; 0x85845dd1;
    0x6fa87e4f; 0xfe2ce6e0; 0xa3014314; 0x4e0811a1;
    0xf7537e82; 0xbd3af235; 0x2ad7d2bb; 0xeb86d391 ].

(** Per-round left-rotation amounts. *)
Definition shifts : list Z :=
  [ 7; 12; 17; 22; 7; 12; 17; 22; 7; 12; 17; 22; 7; 12; 17; 22;
    5; 9; 14; 20; 5; 9; 14; 20; 5; 9; 14; 20; 5; 9; 14; 20;
    4; 11; 16; 23; 4; 11; 16; 23; 4; 11; 16; 23; 4; 11; 16; 23;
    6; 10; 15; 21; 6; 10; 15; 21; 6; 10; 15; 21; 6; 10; 15; 21 ].

(** [n] as [k] little-endian bytes. *)
Fixpoint to_bytes_little (k : nat) (n : Z) : list Z :=
  match k with
  | O => []
  | S k' => n mod 256 :: to_bytes_little k' (n / 256)
  end.

Fixpoint from_bytes_little (bs : list Z) : Z :=
  match bs with
  | [] => 0
  | b :: bs' => b + 256 * from_bytes_little bs'
  end.

(** Message, then 0x80, then zeros up to 56 modulo 64, then the bit length
    on 8 bytes. *)
Definition pad (msg : list Z) : list Z :=
  let n := Z.of_nat (length msg) in
  let zeros := Z.to_nat ((55 - n) mod 64) in
  msg ++ [0x80] ++ replicate zeros 0 ++ to_bytes_little 8 ((8 * n) mod 2 ^ 64).

(** Consecutive blocks of [k] elements; [n] bounds the number of blocks. *)
Fixpoint chunks {A} (k : nat) (n : nat) (l : list A) : list (list A) :=
  match n, l with
  | O, _ | _, [] => []
  | S n', _ => take k l :: chunks k n' (drop k l)
  end.

Definition words (block : list Z) : list Z :=
  from_bytes_little <$> chunks 4 16 block.

Record state := State { sa : Z; sb : Z; sc : Z; sd : Z }.

Definition init : state :=
  State 0x67452301 0xefcdab89 0x98badcfe 0x10325476.

(** One of the 64 operations on a block with message words [M]. *)
Definition step (M : list Z) (st : state) (i : nat) : state :=
  let '(State A B C D) := st in
  let '(F, g) :=
    if (i <? 16)%nat then
      (Z.lor (Z.land B C) (Z.land (not32 B) D), i)
    else if (i <? 32)%nat then
      (Z.lor (Z.land D B) (Z.land (not32 D) C), (5 * i + 1) mod 16)%nat
    else if (i <? 48)%nat then
      (Z.lxor B (Z.lxor C D), (3 * i + 5) mod 16)%nat
    else
      (Z.lxor C (Z.lor B (not32 D)), (7 * i) mod 16)%nat in
  let F' := add32 (add32 (add32 F A) (nth i K 0)) (nth g M 0) in
  State D (add32 B (rotl32 F' (nth i shifts 0))) B C.

Definition compress (st : state) (block : list Z) : state :=
  let '(State A B C D) := foldl (step (words block)) st (seq 0 64) in
  State (add32 (sa st) A) (add32 (sb st) B) (add32 (sc st) C) (add32 (sd st) D).

Definition digest (msg : list Z) : list Z :=
  let padded := pad msg in
  let '(State A B C D) :=
    foldl compress init (chunks 64 (length padded) padded) in
  to_bytes_little 4 A ++ to_bytes_little 4 B ++
  to_bytes_little 4 C ++ to_bytes_little 4 D.

End MD5.

(** ** Identifier derivation *)

(** [int.from_bytes(bs, byteorder='big')] *)
Definition from_bytes_big (bs : list Z) : Z :=
  foldl (λ acc b, 256 * acc + b) 0 bs.

(** [create_stores.py], line 21: the additive constant of store ids. *)
Definition STORE_OFFSET : Z := 4261931000000000000.

(** [int.from_bytes(hashlib.md5(name.encode()).digest()[:8], byteorder='big')
    % (10**18)] ([populate_all_tables.py], lines 28-29). *)
Definition product_id (item_name : str) : result Z :=
  bytes ← Str.encode item_name;
  let hash_bytes := MD5.digest bytes in
  Ok (from_bytes_big (take 8 hash_bytes) mod 10 ^ 18).

(** The same, plus the offset ([create_stores.py], lines 19-21). *)
Definition store_id (name : str) : result Z :=
  bytes ← Str.encode name;
  let hash_bytes := MD5.digest bytes in
  Ok (from_bytes_big (take 8 hash_bytes) mod 10 ^ 18 + STORE_OFFSET).

(** ** Dictionaries in iteration order

    A Python [dict] iterates in insertion order; assigning to a key that is
    present keeps its position. *)

Abbreviation dict V := (list (str * V)).

Module Dict.

Fixpoint get {V} (k : str) (d : dict V) : option V :=
  match d with
  | [] => None
  | (k', v) :: d' => if decide (k' = k) then Some v else get k d'
  end.

Definition mem {V} (k : str) (d : dict V) : bool :=
  match get k d with Some _ => true | None => false end.

(** [d[k] = v] *)
Fixpoint set {V} (k : str) (v : V) (d : dict V) : dict V :=
  match d with
  | [] => [(k, v)]
  | (k', v') :: d' =>
      if decide (k' = k) then (k', v) :: d' else (k', v') :: set k v d'
  end.

Definition keys {V} (d : dict V) : list str := fst <$> d.

End Dict.

(** ** Numbers

    A Python [float] is kept as the exact rational its literal denotes,
    in lowest terms; rounding to binary64 is not part of the model.  The
    values the scripts themselves introduce (0.0 and the integers 1 and 0)
    are exact in both. *)

Inductive pyfloat :=
| Fin (q : Q)
| Inf (negative : bool)
| NaN.

(** Values bound to [quantity] and [total]: a parsed [float] or an [int]
    default. *)
Inductive pynum :=
| PInt (z : Z)
| PFloat (f : pyfloat).

(** Values of a [csv.DictReader] row: a field, or [None] where the record
    was shorter than the header. *)
Inductive pyval :=
| PyNone
| PyStr (s : str).

Module Float.

Local Open Scope N_scope.

(** First code points of the Unicode decimal-digit runs (category Nd,
    Unicode 14), each run holding the digits 0 to 9 in order. *)
Definition digit_runs : list N :=
  [ 0x30; 0x660; 0x6f0; 0x7c0; 0x966; 0x9e6; 0xa66; 0xae6; 0xb66; 0xbe6;
    0xc66; 0xce6; 0xd66; 0xde6; 0xe50; 0xed0; 0xf20; 0x1040; 0x1090;
    0x17e0; 0x1810; 0x1946; 0x19d0; 0x1a80; 0x1a90; 0x1b50; 0x1bb0;
    0x1c40; 0x1c50; 0xa620; 0xa8d0; 0xa900; 0xa9d0; 0xa9f0; 0xaa50;
    0xabf0; 0xff10; 0x104a0; 0x10d30; 0x11066; 0x110f0; 0x11136; 0x111d0;
    0x112f0; 0x11450; 0x114d0; 0x11650; 0x116c0; 0x11730; 0x118e0;
    0x11950; 0x11c50; 0x11d50; 0x11da0; 0x16a60; 0x16ac0; 0x16b50;
    0x1d7ce; 0x1d7d8; 0x1d7e2; 0x1d7ec; 0x1d7f6; 0x1e140; 0x1e2f0;
    0x1e950; 0x1fbf0 ].

(** Decimal value of a code point, if it is a decimal digit. *)
Definition decimal (c : N) : option N :=
  (λ start, c - start) <$> find (λ start, (start <=? c) && (c <? start + 10)) digit_runs.

(** Non-ASCII whitespace becomes a space and non-ASCII digits become ASCII
    digits; the first other non-ASCII code point becomes "?" and ends the
    text.  A text that is ASCII already is left alone. *)
Fixpoint transform_from (s : str) : str :=
  match s with
  | [] => []
  | c :: s' =>
      if c <? 127 then c :: transform_from s'
      else if Str.isspace c then 0x20 :: transform_from s'
      else match decimal c with
           | Some d => (0x30 + d) :: transform_from s'
           | None => [0x3F]
           end
  end.

Definition transform (s : str) : str :=
  if forallb (λ c, c <? 128) s then s else transform_from s.

Definition is_digit (c : N) : bool := (0x30 <=? c) && (c <=? 0x39).

(** An underscore must stand between two digits; underscores are dropped.
    [prev] is the code point before [s] (0 at the start). *)
Fixpoint underscores (prev : N) (s : str) : option str :=
  match s with
  | [] => if prev =? 0x5F then None else Some []
  | c :: s' =>
      if c =? 0x5F then
        if is_digit prev then underscores c s' else None
      else if (prev =? 0x5F) && negb (is_digit c) then None
      else (c ::.) <$> underscores c s'
  end.

(** The whitespace [float] strips from both ends after [transform]. *)
Definition space (c : N) : bool :=
  ((0x09 <=? c) && (c <=? 0x0D)) || (c =? 0x20).

Fixpoint lstrip (s : str) : str :=
  match s with
  | [] => []
  | c :: s' => if space c then lstrip s' else s
  end.

Definition strip (s : str) : str := reverse (lstrip (reverse (lstrip s))).

(** An optional sign: whether it is "-", and the rest. *)
Definition sign (s : str) : bool * str :=
  match s with
  | 0x2D :: r => (true, r)
  | 0x2B :: r => (false, r)
  | _ => (false, s)
  end.

(** The leading ASCII digits, most significant first, and the rest. *)
Fixpoint digits (s : str) : list Z * str :=
  match s with
  | [] => ([], [])
  | c :: s' =>
      if is_digit c then
        let '(ds, r) := digits s' in (Z.of_N (c - 0x30) :: ds, r)
      else ([], s)
  end.

Definition number (ds : list Z) : Z := foldl (λ acc d, 10 * acc + d)%Z 0%Z ds.

(** [(-1)^negative * m * 10^e] in lowest terms. *)
Definition scale (negative : bool) (m e : Z) : Q :=
  let m' := if negative then (- m)%Z else m in
  Qred (if (0 <=? e)%Z then inject_Z (m' * 10 ^ e)
        else Qmake m' (Z.to_pos (10 ^ (- e)))).

(** A decimal literal: digits with an optional point and at least one
    digit, then an optional exponent, and nothing after it. *)
Definition decimal_literal (s : str) : option pyfloat :=
  let '(negative, s1) := sign s in
  let '(ip, s2) := digits s1 in
  let '(fp, s3) :=
    match s2 with
    | 0x2E :: r => digits r
    | _ => ([], s2)
    end in
  let m := number (ip ++ fp) in
  let shift := (- Z.of_nat (length fp))%Z in
  match ip ++ fp, s3 with
  | [], _ => None
  | _, [] => Some (Fin (scale negative m shift))
  | _, c :: r =>
      if (c =? 0x65) || (c =? 0x45) then
        let '(eneg, r1) := sign r in
        let '(ed, r2) := digits r1 in
        let e := if eneg then (- number ed)%Z else number ed in
        match ed, r2 with
        | _ :: _, [] => Some (Fin (scale negative m (e + shift)))
        | _, _ => None
        end
      else None
  end.

(** "inf", "infinity" and "nan" in any letter case, with an optional sign. *)
Definition inf_or_nan (s : str) : option pyfloat :=
  let '(negative, r) := sign s in
  let l := Str.lower r in
  if decide (l = lit "inf" ∨ l = lit "infinity") then Some (Inf negative)
  else if decide (l = lit "nan") then Some NaN
  else None.

(** [float(s)] on a string. *)
Definition of_str (s : str) : result pyfloat :=
  match underscores 0 (transform s) with
  | None => Raise ValueError
  | Some t =>
      let t' := strip t in
      match decimal_literal t' with
      | Some f => Ok f
      | None =>
          match inf_or_nan t' with
          | Some f => Ok f
          | None => Raise ValueError
          end
      end
  end.

(** [float(v)] *)
Definition of_val (v : pyval) : result pyfloat :=
  match v with
  | PyNone => Raise TypeError
  | PyStr s => of_str s
  end.

End Float.

(** ** Methods called on row values *)

(** [v.strip()] *)
Definition val_strip (v : pyval) : result str :=
  match v with
  | PyNone => Raise AttributeError
  | PyStr s => Ok (Str.strip s)
  end.

(** [v.replace(old, new)] *)
Definition val_replace (old new : str) (v : pyval) : result pyval :=
  match v with
  | PyNone => Raise AttributeError
  | PyStr s => Ok (PyStr (Str.replace old new s))
  end.

(** Truth value of a row value. *)
Definition truthy (v : pyval) : bool :=
  match v with
  | PyNone => false
  | PyStr s => Str.nonempty s
  end.

(** ** The CSV reader

    The file is taken as [csv.reader] delivers it: the header record and the
    records after it, each a list of fields. *)

Record csv := Csv { fieldnames : list str; records : list (list str) }.

Abbreviation row := (dict pyval).

(** One [csv.DictReader] row: [dict(zip(fieldnames, record))], then [None]
    under every field name the record is too short for.  Extra fields of a
    longer record go under the key [None], which no lookup below names. *)
Definition dict_row (names : list str) (record : list str) : row :=
  let d := foldl (λ d kv, Dict.set kv.1 (PyStr kv.2) d) [] (zip names record) in
  foldl (λ d key, Dict.set key PyNone d) d (drop (length record) names).

(** The rows [csv.DictReader] yields; records without any field are skipped. *)
Definition DictReader (f : csv) : list row :=
  dict_row (fieldnames f) <$> filter (λ record, record ≠ []) (records f).

(** [row.get(key, default)] *)
Definition get (r : row) (key dflt : str) : pyval :=
  default (PyStr dflt) (Dict.get key r).

(** [for x in xs: st = body(st, x)], stopping at the first exception. *)
Fixpoint for_each {S X} (body : S → X → result S) (st : S) (xs : list X) : result S :=
  match xs with
  | [] => Ok st
  | x :: xs' => st' ← body st x; for_each body st' xs'
  end.

(** ** [create_stores.py] *)

Module Stores.

(** Lines 8-11: one pass of the reading loop. *)
Definition read_row (customers : gset str) (r : row) : result (gset str) :=
  name ← val_strip (get r (lit "Customer Name") []);
  Ok (if Str.nonempty name then {[name]} ∪ customers else customers).

(** Lines 5-11. *)
Definition read_customers (f : csv) : result (gset str) :=
  for_each read_row ∅ (DictReader f).

(** [sorted(customers)] *)
Definition sorted (customers : gset str) : list str :=
  merge_sort Str.le (elements customers).

(** The fields line 31 formats into one VALUES tuple, apart from the
    constant ones and the e-mail text. *)
Record store := Store {
  id : Z;
  sql_name : str;
  city : str;
  state : str
}.

(** Line 27. *)
Definition city_of (name : str) : str :=
  if Str.contains (lit "SF") name || Str.contains (lit "San") name then lit "San Francisco"
  else if Str.contains (lit "Portland") name then lit "Portland"
  else if Str.contains (lit "Seattle") name then lit "Seattle"
  else lit "Sacramento".

(** Line 28. *)
Definition state_of (city : str) : str :=
  if decide (city = lit "San Francisco" ∨ city = lit "Sacramento") then lit "CA"
  else if decide (city = lit "Portland") then lit "OR"
  else lit "WA".

(** Lines 18-31: the body of the emission loop. *)
Definition emit (values : list store) (name : str) : result (list store) :=
  sid ← store_id name;
  let sql_name := Str.replace (lit "'") (lit "''") name in
  let city := city_of name in
  Ok (values ++ [Store sid sql_name city (state_of city)]).

(** The whole script: the tuples printed by line 33. *)
Definition create_stores (f : csv) : result (list store) :=
  customers ← read_customers f;
  for_each emit [] (sorted customers).

End Stores.

(** ** [populate_all_tables.py] *)

Module Populate.

Record product := Product {
  id : Z;
  name : str;
  price : pyfloat;
  category : str;
  brand : str
}.

Record invoice_item := InvoiceItem {
  invoice_id : str;
  product_name : str;
  quantity : pynum;
  unit_price : pyfloat;
  total : pynum
}.

(** Lines 32-35. *)
Definition parse_price (r : row) : pyfloat :=
  try_except
    (t ← val_replace (lit "$") [] (get r (lit "Item Price") (lit "0"));
     t ← val_replace (lit ",") [] t;
     Float.of_val t)
    (Fin 0).

(** Line 41. *)
Definition category_of (item_name : str) : str :=
  if existsb (λ x, Str.contains x (Str.lower item_name))
       [lit "rice"; lit "dal"; lit "flour"; lit "oil"; lit "spice"]
  then lit "Food" else lit "Grocery".

(** Line 42. *)
Definition brand_of (item_name : str) : result str :=
  if Str.contains (lit " ") item_name then
    match Str.split item_name with
    | first :: _ => Ok first
    | [] => Raise IndexError
    end
  else Ok (lit "Generic").

(** Lines 48-53. *)
Definition parse_amounts (r : row) : pynum * pynum :=
  try_except
    (quantity ← Float.of_val (get r (lit "Quantity") (lit "1"));
     t ← val_replace (lit "$") [] (get r (lit "Total") (lit "0"));
     t ← val_replace (lit ",") [] t;
     total ← Float.of_val t;
     Ok (PFloat quantity, PFloat total))
    (PInt 1, PInt 0).

Abbreviation tables := (dict product * list invoice_item)%type.

(** Lines 25-43. *)
Definition add_product (products : dict product) (r : row) (item_name : str)
  : result (dict product) :=
  if Str.nonempty item_name && negb (Dict.mem item_name products) then
    product_id ← product_id item_name;
    let price := parse_price r in
    brand ← brand_of item_name;
    Ok (Dict.set item_name
          (Product product_id item_name price (category_of item_name) brand)
          products)
  else Ok products.

(** Lines 46-61. *)
Definition add_item (products : dict product) (invoice_items : list invoice_item)
    (r : row) (item_name : str) : result (list invoice_item) :=
  let invoice_id := get r (lit "Invoice ID") [] in
  match invoice_id with
  | PyStr inv =>
      if Str.nonempty inv && Str.nonempty item_name then
        let '(quantity, total) := parse_amounts r in
        match Dict.get item_name products with
        | Some p =>
            Ok (invoice_items ++
                [InvoiceItem inv item_name quantity (price p) total])
        | None => Raise KeyError
        end
      else Ok invoice_items
  | PyNone => Ok invoice_items
  end.

(** Lines 23-61: one pass of the reading loop. *)
Definition read_row (t : tables) (r : row) : result tables :=
  let '(products, invoice_items) := t in
  item_name ← val_strip (get r (lit "Item Name") []);
  products ← add_product products r item_name;
  invoice_items ← add_item products invoice_items r item_name;
  Ok (products, invoice_items).

(** Lines 18-61. *)
Definition read_csv (f : csv) : result tables :=
  for_each read_row ([], []) (DictReader f).

(** Lines 68-84: the products in the order the INSERT statements are issued
    for them. *)
Definition inserted_products (products : dict product) : list product :=
  snd <$> products.

(** Line 93: [{row[1]: row[0] for row in cur.fetchall()}] *)
Definition order_map_of {A} (fetched : list (A * str)) : dict A :=
  foldl (λ d r, Dict.set r.2 r.1 d) [] fetched.

(** Lines 99-104: the invoice-to-order matcher. *)

(** The loop condition
    [item['invoice_id'] in order_num or order_num in item['invoice_id']]. *)
Definition order_matches (invoice_id order_num : str) : bool :=
  Str.contains invoice_id order_num || Str.contains order_num invoice_id.

(** [order_id = None; for order_num, oid in order_map.items(): ... break] *)
Fixpoint find_order {A} (invoice_id : str) (order_map : dict A) : option A :=
  match order_map with
  | [] => None
  | (order_num, oid) :: rest =>
      if order_matches invoice_id order_num then Some oid
      else find_order invoice_id rest
  end.

End Populate.

(** ** The recommendation statement ([populate_all_tables.py], lines 132-156)

    One SQL statement, run by the database.  Its two calls of [RANDOM()] are
    read from an explicit source of draws; arithmetic is exact.  The rows the
    statement adds are those of the SELECT that the table's uniqueness
    constraints accept. *)

Module Recommend.

Local Open Scope Q_scope.

Record order := Order { order_key : Z; order_store : Z }.

Record product := Product {
  product_key : Z;
  product_price : Q;
  product_category : str
}.

Record recommendation := Recommendation {
  order_id : Z;
  store_id : Z;
  product_id : Z;
  recommendation_type : str;
  confidence_score : Q;
  expected_revenue : Q;
  reason : str;
  status : str
}.

(** [LIMIT 500] *)
Definition LIMIT : nat := 500.

(** [FROM orders o CROSS JOIN products p] *)
Definition cross_join (orders : list order) (products : list product)
  : list (order * product) :=
  o ← orders; p ← products; [(o, p)].

(** The CASE expression of lines 141-145. *)
Definition type_of (p : product) : str :=
  if Qlt_le_dec 50 (product_price p) then lit "upsell"
  else if decide (product_category p = lit "Food") then lit "cross_sell"
  else lit "bundle".

(** The SELECT list of lines 138-150, with [r] the value of its [RANDOM()]. *)
Definition select_row (o : order) (p : product) (r : Q) : recommendation :=
  Recommendation (order_key o) (order_store o) (product_key p) (type_of p)
    (r * (1 # 2) + (1 # 2)) (product_price p * (6 # 5))
    (lit "Frequently bought together") (lit "pending").

(** [SELECT ... WHERE RANDOM() < 0.1 LIMIT limit] over the joined pairs:
    [random n] is the [n]-th draw of the statement. *)
Fixpoint select (random : nat → Q) (n : nat) (limit : nat)
    (pairs : list (order * product)) : list recommendation :=
  match limit, pairs with
  | O, _ | _, [] => []
  | S limit', (o, p) :: pairs' =>
      if Qlt_le_dec (random n) (1 # 10) then
        select_row o p (random (S n)) :: select random (S (S n)) limit' pairs'
      else select random (S n) limit pairs'
  end.

(** [ON CONFLICT DO NOTHING]: a row is added unless [conflicts] rejects it
    against the rows already there. *)
Definition insert (conflicts : recommendation → list recommendation → bool)
    (table : list recommendation) (rows : list recommendation)
  : list recommendation * list recommendation :=
  foldl (λ acc row,
           if conflicts row (acc.1 ++ acc.2) then acc
           else (acc.1, acc.2 ++ [row]))
        (table, []) rows.

(** The rows the statement adds to [table]. *)
Definition generate (conflicts : recommendation → list recommendation → bool)
    (random : nat → Q) (table : list recommendation)
    (orders : list order) (products : list product) : list recommendation :=
  (insert conflicts table (select random 0 LIMIT (cross_join orders products))).2.

End Recommend.

(** ** Vocabulary of the specification *)

(** An order number and an invoice identifier match when either contains
    the other. *)
Definition order_related (invoice_id order_num : str) : Prop :=
  Str.substring order_num invoice_id ∨ Str.substring invoice_id order_num.

(** The unsigned integer a byte string denotes, most significant byte
    first. *)
Fixpoint big_endian (bs : list Z) : Z :=
  match bs with
  | [] => 0
  | b :: bs' => b * 256 ^ Z.of_nat (length bs') + big_endian bs'
  end.

Definition byte (b : Z) : Prop := 0 ≤ b < 256.

(** The two conversions line 49 and line 50 attempt on a row. *)
Definition quantity_parse (r : row) : result pyfloat :=
  Float.of_val (get r (lit "Quantity") (lit "1")).

Definition total_parse (r : row) : result pyfloat :=
  t ← val_replace (lit "$") [] (get r (lit "Total") (lit "0"));
  t ← val_replace (lit ",") [] t;
  Float.of_val t.

(** A number that is zero. *)
Definition zero_valued (n : pynum) : Prop :=
  match n with
  | PInt z => z = 0
  | PFloat (Fin q) => Qeq q 0
  | PFloat _ => False
  end.

(** The text a row holds under [key]: a record too short for the column
    holds none. *)
Definition field (key : str) (r : row) : option str :=
  match get r key [] with
  | PyStr s => Some s
  | PyNone => None
  end.

(** The values of a column, in file order. *)
Definition column (key : str) (f : csv) : list str :=
  omap (field key) (DictReader f).

(** The non-blank names of a column, stripped, in file order and with
    repetitions. *)
Definition names (key : str) (f : csv) : list str :=
  filter (λ n, n ≠ []) (Str.strip <$> column key f).

(** Every record reaches the column [key]. *)
Definition complete (key : str) (f : csv) : Prop :=
  Forall (λ r, is_Some (field key r)) (DictReader f).

(** Every field is text a UTF-8 decoder can have produced. *)
Definition decoded_csv (f : csv) : Prop :=
  Forall (Forall (λ s, Str.decoded s = true)) (records f).

(** Strict lexicographic order on code points. *)
Inductive lex_lt : str → str → Prop :=
| lex_lt_nil y b : lex_lt [] (y :: b)
| lex_lt_head x y a b : (x < y)%N → lex_lt (x :: a) (y :: b)
| lex_lt_tail x a b : lex_lt a b → lex_lt (x :: a) (x :: b).

(** The distinct elements of a list, each at its first occurrence. *)
Fixpoint first_occurrences (l : list str) : list str :=
  match l with
  | [] => []
  | x :: l' => x :: filter (λ y, y ≠ x) (first_occurrences l')
  end.

(** What line 31 prints for a customer name. *)
Definition emitted_for (name : str) (st : Stores.store) : Prop :=
  store_id name = Ok (Stores.id st) ∧
  Stores.sql_name st = Str.replace (lit "'") (lit "''") name ∧
  Stores.city st = Stores.city_of name ∧
  Stores.state st = Stores.state_of (Stores.city_of name).

(** The product entry lines 37-43 build from row [r] for the name [n]. *)
Definition product_for (r : row) (n : str) (p : Populate.product) : Prop :=
  product_id n = Ok (Populate.id p) ∧
  Populate.name p = n ∧
  Populate.price p = Populate.parse_price r ∧
  Populate.category p = Populate.category_of n ∧
  Populate.brand_of n = Ok (Populate.brand p).

(** [r] is the first of [rows] whose Item Name, stripped, is [n]. *)
Definition first_row_of (rows : list row) (n : str) (r : row) : Prop :=
  ∃ before after s,
    rows = before ++ r :: after ∧
    field (lit "Item Name") r = Some s ∧ Str.strip s = n ∧
    Forall (λ r', ∀ s', field (lit "Item Name") r' = Some s' → Str.strip s' ≠ n)
           before.

#[global] Instance complete_dec key f : Decision (complete key f).
Proof. unfold complete. apply _. Defined.

#[global] Instance decoded_csv_dec f : Decision (decoded_csv f).
Proof. unfold decoded_csv. apply _. Defined.

(** ** Sample inputs *)

Module Sample.

(** Three invoice lines: an item without a readable price, then a second
    item twice, at two prices and once with an unreadable quantity. *)
Definition invoices : csv :=
  Csv [lit "Invoice ID"; lit "Customer Name"; lit "Item Name";
       lit "Item Price"; lit "Quantity"; lit "Total"]
      [ [lit "INV-2"; lit " Zed Foods "; lit "Salt";
         lit "N/A"; lit "3"; lit "1,000.5"];
        [lit "INV-1"; lit "Acme SF"; lit "Basmati Rice";
         lit "$10.00"; lit "2"; lit "$20.00"];
        [lit "INV-1"; lit "Acme SF"; lit " Basmati Rice";
         lit "$12.00"; lit "abc"; lit "$24.00"] ].

(** The second record ends before the Customer Name column. *)
Definition short_customer : csv :=
  Csv [lit "Item Name"; lit "Customer Name"]
      [ [lit "Salt"; lit "Acme"]; [lit "Sugar"] ].

(** The second record ends before the Item Name column. *)
Definition short_item : csv :=
  Csv [lit "Customer Name"; lit "Item Name"]
      [ [lit "Acme"; lit "Salt"]; [lit "Zed"] ].

(** Two records with the same, empty, Item Name and two prices. *)
Definition blank_items : csv :=
  Csv [lit "Item Name"; lit "Item Price"]
      [ [[]; lit "$1.00"]; [[]; lit "$2.00"] ].

(** The last line of [invoices]. *)
Definition bad_quantity : row :=
  dict_row (fieldnames invoices)
    [lit "INV-1"; lit "Acme SF"; lit " Basmati Rice";
     lit "$12.00"; lit "abc"; lit "$24.00"].

Definition rice : Populate.product :=
  Populate.Product 850338995742140055 (lit "Basmati Rice") (Fin 10)
    (lit "Food") (lit "Basmati").

(** The customers of [invoices] in another order, in a file of one column. *)
Definition customers_reordered : csv :=
  Csv [lit "Customer Name"]
      [ [lit "Acme SF"]; [lit "  "]; [lit "Zed Foods  "]; [lit "Acme SF "] ].

(** Two orders, two products, a source of draws that keeps every pair, and
    a table without uniqueness constraints. *)
Definition orders : list Recommend.order :=
  [Recommend.Order 1 4803103110440544781; Recommend.Order 2 5027351962790370972].

Definition catalogue : list Recommend.product :=
  [Recommend.Product 850338995742140055 10 (lit "Food");
   Recommend.Product 624518273476107074 60 (lit "Grocery")].

Definition low_draws : nat → Q := λ _, 0%Q.

Definition no_conflict : Recommend.recommendation → list Recommend.recommendation → bool :=
  λ _ _, false.

(** A uniqueness constraint on the pair of order and product, and a table
    that already holds a row for the first pair of the sample. *)
Definition unique_pair : Recommend.recommendation → list Recommend.recommendation → bool :=
  λ row table,
    existsb (λ r, (Recommend.order_id r =? Recommend.order_id row) &&
                  (Recommend.product_id r =? Recommend.product_id row)) table.

Definition held : list Recommend.recommendation :=
  [Recommend.Recommendation 1 4803103110440544781 850338995742140055
     (lit "bundle") (3 # 4) 12 (lit "Frequently bought together") (lit "pending")].

(** The order map of the matcher's example with an order whose id is 0. *)
Definition order_numbers : dict Z :=
  [(lit "INV-2", 0); (lit "INV-1", 7); (lit "INV-10", 8)].

End Sample.

(** ** Inserting the invoice items ([populate_all_tables.py], lines 95-128)

    Order identifiers are integers, as in the example of the matcher. *)

Module Invoices.

(** The parameters of one INSERT of lines 108-122. *)
Record params := Params {
  order_id : Z;
  product_id : Z;
  product_name : str;
  quantity : pynum;
  unit_price : pyfloat;
  total_price : pynum;
  discount : Z
}.

(** Lines 99-106 and 114-122: the INSERT issued for an item, if any.  The
    lookup of the product stands inside the [try]; were it to fail the item
    would be passed over. *)
Definition attempt (products : dict Populate.product) (order_map : dict Z)
    (item : Populate.invoice_item) : option params :=
  match Populate.find_order (Populate.invoice_id item) order_map with
  | Some oid =>
      if negb (oid =? 0) && Dict.mem (Populate.product_name item) products then
        (λ p, Params oid (Populate.id p) (Populate.product_name item)
                (Populate.quantity item) (Populate.unit_price item)
                (Populate.total item) 0)
          <$> Dict.get (Populate.product_name item) products
      else None
  | None => None
  end.

(** Lines 97-125.  [returns k] tells whether the [k]-th [cur.execute] of the
    loop returns rather than raises; the state is the INSERTs issued so far
    and [inserted_items]. *)
Definition insert_items (returns : nat → bool)
    (products : dict Populate.product) (order_map : dict Z)
    (items : list Populate.invoice_item) : list params * Z :=
  foldl (λ st item,
           match attempt products order_map item with
           | Some ps =>
               (st.1 ++ [ps],
                if returns (length st.1) then st.2 + 1 else st.2)
           | None => st
           end)
        ([], 0) items.

End Invoices.

(** ** Reading UTF-8

    The scripts open the file with [encoding='utf-8']: its bytes reach them
    as code points.  [decode_point] reads one code point off the front of a
    byte string, refusing over-long forms, surrogates and values above
    U+10FFFF; [decode] reads a whole string. *)

Module Utf8.

Definition continuation (b : Z) : bool := (0x80 <=? b) && (b <=? 0xBF).

Definition decode_point (bs : list Z) : option (N * list Z) :=
  match bs with
  | [] => None
  | b0 :: t =>
      if b0 <? 0x80 then (if 0 <=? b0 then Some (Z.to_N b0, t) else None)
      else if (0xC2 <=? b0) && (b0 <=? 0xDF) then
        match t with
        | b1 :: t' =>
            if continuation b1 then
              Some (Z.to_N (Z.lor (Z.shiftl (Z.land b0 0x1F) 6) (Z.land b1 0x3F)), t')
            else None
        | _ => None
        end
      else if (0xE0 <=? b0) && (b0 <=? 0xEF) then
        match t with
        | b1 :: b2 :: t' =>
            let c := Z.lor (Z.shiftl (Z.land b0 0x0F) 12)
                       (Z.lor (Z.shiftl (Z.land b1 0x3F) 6) (Z.land b2 0x3F)) in
            if continuation b1 && continuation b2 && (0x800 <=? c) &&
               negb ((0xD800 <=? c) && (c <=? 0xDFFF))
            then Some (Z.to_N c, t') else None
        | _ => None
        end
      else if (0xF0 <=? b0) && (b0 <=? 0xF4) then
        match t with
        | b1 :: b2 :: b3 :: t' =>
            let c := Z.lor (Z.shiftl (Z.land b0 0x07) 18)
                       (Z.lor (Z.shiftl (Z.land b1 0x3F) 12)
                          (Z.lor (Z.shiftl (Z.land b2 0x3F) 6) (Z.land b3 0x3F))) in
            if continuation b1 && continuation b2 && continuation b3 &&
               (0x10000 <=? c) && (c <=? 0x10FFFF)
            then Some (Z.to_N c, t') else None
        | _ => None
        end
      else None
  end.

(** [fuel] bounds the number of code points read. *)
Fixpoint decode_from (fuel : nat) (bs : list Z) : option str :=
  match bs, fuel with
  | [], _ => Some []
  | _ :: _, O => None
  | _ :: _, S fuel' =>
      match decode_point bs with
      | Some (c, rest) => (c ::.) <$> decode_from fuel' rest
      | None => None
      end
  end.

Definition decode (bs : list Z) : option str := decode_from (length bs) bs.

(** [P] holds of the [fuel] numbers from [c] on. *)
Fixpoint forall_from (fuel : nat) (c : N) (P : N → bool) : bool :=
  match fuel with
  | O => true
  | S k => if P c then forall_from k (N.succ c) P else false
  end.

(** A code point is either refused by [encode_point], being no scalar
    value, or encoded in one to four bytes that [decode_point] reads
    back. *)
Definition reads_back (c : N) : bool :=
  match Str.encode_point c with
  | Ok bs =>
      Str.scalar c &&
      forallb (λ b, (0 <=? b) && (b <? 256)) bs &&
      (1 <=? length bs)%nat && (length bs <=? 4)%nat &&
      match decode_point bs with
      | Some (c', []) => N.eqb c c'
      | _ => false
      end
  | Raise _ => negb (Str.scalar c)
  end.

End Utf8.

(** ** Further vocabulary *)

(** A text that is not empty and neither begins nor ends with whitespace. *)
Definition trimmed (n : str) : Prop :=
  n ≠ [] ∧
  (∀ c t, n = c :: t → Str.isspace c = false) ∧
  (∀ c t, n = t ++ [c] → Str.isspace c = false).

(** The invoice identifier and the stripped item name under which a row is
    collected as an invoice item, if it is. *)
Definition collected (r : row) : option (str * str) :=
  match get r (lit "Invoice ID") [], field (lit "Item Name") r with
  | PyStr inv, Some s =>
      if Str.nonempty inv && Str.nonempty (Str.strip s)
      then Some (inv, Str.strip s) else None
  | _, _ => None
  end.

(** What is recorded for a collected row [r], given the final products:
    the row's invoice identifier and stripped item name, its parsed amounts,
    and the price of the product of that name. *)
Definition recorded (products : dict Populate.product) (r : row)
    (item : Populate.invoice_item) : Prop :=
  collected r = Some (Populate.invoice_id item, Populate.product_name item) ∧
  (Populate.quantity item, Populate.total item) = Populate.parse_amounts r ∧
  ∃ p, Dict.get (Populate.product_name item) products = Some p ∧
       Populate.unit_price item = Populate.price p.

(** * Theorems *)

Import Populate.

Section Substring.

Lemma startswith_spec p s :
  Str.startswith p s = true ↔ ∃ post, s = p ++ post.
Proof.
  revert s. induction p as [|a p IH]; intros s; simpl.
  - split; [eauto | done].
  - destruct s as [|b s].
    + split; [done | intros [post H]; discriminate].
    + destruct (N.eqb_spec a b) as [->|Hne].
      * rewrite IH. split; intros [post H]; exists post; simpl in *; congruence.
      * split; [done | intros [post H]; simpl in H; congruence].
Qed.

Lemma contains_spec sub s :
  Str.contains sub s = true ↔ Str.substring sub s.
Proof.
  unfold Str.substring. induction s as [|b s IH]; simpl.
  - rewrite orb_false_r, startswith_spec. split.
    + intros [post H]. exists [], post. done.
    + intros (pre & post & H). destruct pre; [eauto|discriminate].
  - rewrite orb_true_iff, startswith_spec, IH. split.
    + intros [[post H]|(pre & post & H)].
      * exists [], post. done.
      * exists (b :: pre), post. simpl. congruence.
    + intros (pre & post & H). destruct pre as [|c pre].
      * left. eauto.
      * right. exists pre, post. simpl in H. congruence.
Qed.

End Substring.

(** The string methods on inputs of the kind the file holds. *)
Example encode_utf8 :
  Str.encode [0xE9; 0x20AC; 0x1F600]%N =
  Ok [195; 169; 226; 130; 172; 240; 159; 152; 128].
Proof. reflexivity. Qed.

Example encode_surrogate : Str.encode [0xD800%N] = Raise UnicodeEncodeError.
Proof. reflexivity. Qed.

Example strip_sample :
  Str.strip (lit "  Acme" ++ [0x09%N] ++ lit "SF " ++ [0x1F%N]) =
  lit "Acme" ++ [0x09%N] ++ lit "SF".
Proof. reflexivity. Qed.

Example split_sample :
  Str.split (lit "a  b" ++ [0x3000%N] ++ lit "c ") = [lit "a"; lit "b"; lit "c"].
Proof. reflexivity. Qed.

Example replace_sample :
  Str.replace (lit "'") (lit "''") (lit "O'Brien's") = lit "O''Brien''s" ∧
  Str.replace (lit "ab") (lit "X") (lit "abcabab") = lit "XcXX".
Proof. split; reflexivity. Qed.

(** [float] on texts it accepts and texts it rejects. *)
Example float_accepts :
  Float.of_str <$>
    [lit "1_000.5"; lit " 1 "; lit "+.5e-1_0"; lit "1.e2"; lit "-InFiNiTy";
     lit "nan"; [0xFF11; 0xFF12; 0x2E; 0xFF15]%N; [0x85; 0x31]%N] =
  [Ok (Fin (2001 # 2)); Ok (Fin 1); Ok (Fin (1 # 20000000000)); Ok (Fin 100);
   Ok (Inf true); Ok NaN; Ok (Fin (25 # 2)); Ok (Fin 1)].
Proof. vm_compute. reflexivity. Qed.

Example float_rejects :
  Float.of_str <$>
    [lit ""; lit "  "; lit "N/A"; lit "$5"; lit "1,000"; lit "1__0"; lit "_1";
     lit "1_"; lit "1e"; lit "."; lit "1 2"; lit "0x10"; lit "infi";
     [0x1C; 0x31]%N] =
  replicate 14 (Raise ValueError).
Proof. vm_compute. reflexivity. Qed.


(** ** The matcher *)

Lemma order_matches_spec invoice_id order_num :
  order_matches invoice_id order_num = true ↔ order_related invoice_id order_num.
Proof.
  unfold order_matches, order_related.
  rewrite orb_true_iff, !contains_spec. tauto.
Qed.

Lemma find_order_some {A} invoice_id (order_map : dict A) oid :
  find_order invoice_id order_map = Some oid ↔
  ∃ before order_num after,
    order_map = before ++ (order_num, oid) :: after ∧
    order_related invoice_id order_num ∧
    Forall (λ e, ¬ order_related invoice_id e.1) before.
Proof.
  induction order_map as [|[num o] rest IH]; simpl.
  - split; [done|]. intros (before & ? & ? & H & _). by destruct before.
  - destruct (order_matches invoice_id num) eqn:Hm.
    + apply order_matches_spec in Hm. split.
      * intros [= ->]. exists [], num, rest. auto.
      * intros (before & num' & after & Heq & Hrel & Hno).
        destruct before as [|e before]; simplify_eq/=; [done|].
        by inversion_clear Hno.
    + assert (¬ order_related invoice_id num) as Hn.
      { rewrite <-order_matches_spec. congruence. }
      rewrite IH. split.
      * intros (before & num' & after & -> & Hrel & Hno).
        exists ((num, o) :: before), num', after. auto.
      * intros (before & num' & after & Heq & Hrel & Hno).
        destruct before as [|e before]; simplify_eq/=; [done|].
        inversion_clear Hno. exists before, num', after. auto.
Qed.

Lemma find_order_none {A} invoice_id (order_map : dict A) :
  find_order invoice_id order_map = None ↔
  Forall (λ e, ¬ order_related invoice_id e.1) order_map.
Proof.
  induction order_map as [|[num o] rest IH]; simpl.
  - split; [constructor|done].
  - rewrite Forall_cons. simpl. rewrite <-IH, <-order_matches_spec.
    destruct (order_matches invoice_id num); split; try done; intros []; done.
Qed.

(** C1: the matcher returns the order id of the first entry, in iteration
    order, whose order number contains the invoice identifier or is contained
    in it, and nothing when no entry does; on [{"INV-100": 1, "INV-200": 2}]
    and ["INV-1000X"] it returns 1. *)
Theorem matcher_first_match :
  (∀ (A : Type) (invoice_id : str) (order_map : dict A),
     (∀ oid, find_order invoice_id order_map = Some oid ↔
        ∃ before order_num after,
          order_map = before ++ (order_num, oid) :: after ∧
          order_related invoice_id order_num ∧
          Forall (λ e, ¬ order_related invoice_id e.1) before) ∧
     (find_order invoice_id order_map = None ↔
        Forall (λ e, ¬ order_related invoice_id e.1) order_map)) ∧
  find_order (lit "INV-1000X") [(lit "INV-100", 1); (lit "INV-200", 2)] = Some 1.
Proof.
  split; [|reflexivity].
  intros A invoice_id order_map. split.
  - intros oid. apply find_order_some.
  - apply find_order_none.
Qed.

(** The mapping of the example as line 93 builds it from the fetched
    (id, order_number) pairs. *)
Example matcher_on_fetched_orders :
  find_order (lit "INV-1000X")
    (order_map_of [(1, lit "INV-100"); (2, lit "INV-200")]) = Some 1 ∧
  find_order (lit "INV-3") (order_map_of [(1, lit "INV-100"); (2, lit "INV-200")])
    = None.
Proof. split; reflexivity. Qed.

(** ** Identifier derivation *)

Lemma to_bytes_little_length k n : length (MD5.to_bytes_little k n) = k.
Proof. revert n. induction k; intros; simpl; auto. Qed.

Lemma to_bytes_little_byte k n : Forall byte (MD5.to_bytes_little k n).
Proof.
  revert n. induction k as [|k IH]; intros n; simpl; constructor; [|apply IH].
  unfold byte. apply Z.mod_pos_bound. lia.
Qed.

Lemma digest_length msg : length (MD5.digest msg) = 16%nat.
Proof.
  unfold MD5.digest. destruct (foldl _ _ _).
  rewrite !length_app, !to_bytes_little_length. reflexivity.
Qed.

Lemma digest_byte msg : Forall byte (MD5.digest msg).
Proof.
  unfold MD5.digest. destruct (foldl _ _ _).
  rewrite !Forall_app. auto using to_bytes_little_byte.
Qed.

Lemma from_bytes_big_app bs b :
  from_bytes_big (bs ++ [b]) = 256 * from_bytes_big bs + b.
Proof. unfold from_bytes_big. by rewrite foldl_app. Qed.

Lemma big_endian_app bs b : big_endian (bs ++ [b]) = 256 * big_endian bs + b.
Proof.
  induction bs as [|a bs IH]; simpl; [lia|].
  rewrite IH, length_app. simpl.
  replace (Z.of_nat (length bs + 1)) with (Z.succ (Z.of_nat (length bs))) by lia.
  rewrite Z.pow_succ_r by lia. lia.
Qed.

Lemma from_bytes_big_spec bs : from_bytes_big bs = big_endian bs.
Proof.
  induction bs as [|b bs IH] using rev_ind; [done|].
  by rewrite from_bytes_big_app, big_endian_app, IH.
Qed.

Lemma big_endian_bound bs :
  Forall byte bs → 0 ≤ big_endian bs < 256 ^ Z.of_nat (length bs).
Proof.
  induction 1 as [|b bs Hb _ IH]; simpl; [lia|].
  unfold byte in Hb.
  replace (Z.of_nat (S (length bs))) with (Z.succ (Z.of_nat (length bs))) by lia.
  rewrite Z.pow_succ_r by lia. nia.
Qed.

Lemma hash_prefix_bound msg :
  0 ≤ big_endian (take 8 (MD5.digest msg)) < 2 ^ 64.
Proof.
  pose proof (big_endian_bound (take 8 (MD5.digest msg))) as H.
  rewrite length_take, digest_length in H.
  apply H, Forall_take, digest_byte.
Qed.

Lemma encode_point_scalar c :
  Str.scalar c = true → ∃ bs, Str.encode_point c = Ok bs.
Proof.
  unfold Str.scalar, Str.encode_point. intros H.
  apply andb_true_iff in H as [H1 H2]. apply N.ltb_lt in H2.
  repeat case_match; eauto; exfalso.
  - apply orb_true_iff in H1 as [H1|H1]; [apply N.ltb_lt in H1|apply N.ltb_lt in H1];
      lia.
  - lia.
Qed.

Lemma encode_decoded s :
  Str.decoded s = true → ∃ bs, Str.encode s = Ok bs.
Proof.
  unfold Str.decoded. induction s as [|c s IH]; simpl; [eauto|].
  intros [Hc Hs]%andb_true_iff.
  destruct (encode_point_scalar c Hc) as [b ->].
  destruct (IH Hs) as [bs ->]. simpl. eauto.
Qed.

Lemma product_id_eq name bytes :
  Str.encode name = Ok bytes →
  product_id name = Ok (big_endian (take 8 (MD5.digest bytes)) mod 10 ^ 18).
Proof. unfold product_id. intros ->. simpl. by rewrite from_bytes_big_spec. Qed.

Lemma store_id_eq name bytes :
  Str.encode name = Ok bytes →
  store_id name =
  Ok (big_endian (take 8 (MD5.digest bytes)) mod 10 ^ 18 + STORE_OFFSET).
Proof. unfold store_id. intros ->. simpl. by rewrite from_bytes_big_spec. Qed.

(** C2: the identifier of a name is the first 8 bytes of the 16-byte MD5
    digest of its UTF-8 encoding, read most significant byte first and
    reduced modulo 10^18; the product variant is that value, the store
    variant adds the positive constant [STORE_OFFSET]; both are
    non-negative. *)
Theorem derived_identifier (name : str) :
  Str.decoded name = true →
  ∃ bytes,
    Str.encode name = Ok bytes ∧
    length (MD5.digest bytes) = 16%nat ∧
    let h := big_endian (take 8 (MD5.digest bytes)) in
    0 ≤ h < 2 ^ 64 ∧
    product_id name = Ok (h mod 10 ^ 18) ∧
    store_id name = Ok (h mod 10 ^ 18 + STORE_OFFSET) ∧
    0 < STORE_OFFSET ∧
    0 ≤ h mod 10 ^ 18 ∧
    0 ≤ h mod 10 ^ 18 + STORE_OFFSET.
Proof.
  intros [bytes Henc]%encode_decoded. exists bytes.
  pose proof (hash_prefix_bound bytes) as Hh.
  pose proof (Z.mod_pos_bound (big_endian (take 8 (MD5.digest bytes))) (10 ^ 18)
                ltac:(lia)) as Hm.
  assert (0 < STORE_OFFSET) by (unfold STORE_OFFSET; lia).
  repeat split; auto using digest_length, product_id_eq, store_id_eq; lia.
Qed.

Lemma derived_identifier_witness :
  Str.decoded (lit "Basmati Rice") = true ∧
  ∃ bytes, Str.encode (lit "Basmati Rice") = Ok bytes ∧
    product_id (lit "Basmati Rice") =
      Ok (big_endian (take 8 (MD5.digest bytes)) mod 10 ^ 18).
Proof.
  split; [reflexivity|].
  destruct (derived_identifier (lit "Basmati Rice") eq_refl)
    as (bytes & Henc & _ & _ & Hp & _).
  exists bytes. split; assumption.
Defined.

(** The digests of RFC 1321's test suite, and the identifiers the two
    scripts give one name. *)
Example md5_empty :
  MD5.digest [] =
  [0xd4; 0x1d; 0x8c; 0xd9; 0x8f; 0x00; 0xb2; 0x04;
   0xe9; 0x80; 0x09; 0x98; 0xec; 0xf8; 0x42; 0x7e].
Proof. vm_compute. reflexivity. Qed.

Example md5_abc :
  MD5.digest (Z.of_N <$> lit "abc") =
  [0x90; 0x01; 0x50; 0x98; 0x3c; 0xd2; 0x4f; 0xb0;
   0xd6; 0x96; 0x3f; 0x7d; 0x28; 0xe1; 0x7f; 0x72].
Proof. vm_compute. reflexivity. Qed.

Example md5_message_digest :
  MD5.digest (Z.of_N <$> lit "message digest") =
  [0xf9; 0x6b; 0x69; 0x7d; 0x7c; 0xb7; 0x93; 0x8d;
   0x52; 0x5a; 0x2f; 0x31; 0xaa; 0xf1; 0x61; 0xd0].
Proof. vm_compute. reflexivity. Qed.

Example product_id_basmati :
  product_id (lit "Basmati Rice") = Ok 850338995742140055.
Proof. vm_compute. reflexivity. Qed.

Example store_id_basmati :
  store_id (lit "Basmati Rice") = Ok 5112269995742140055.
Proof. vm_compute. reflexivity. Qed.

Lemma ids_of_decoded name :
  Str.decoded name = true →
  ∃ h, 0 ≤ h < 10 ^ 18 ∧
       product_id name = Ok h ∧ store_id name = Ok (h + STORE_OFFSET).
Proof.
  intros [bytes Henc]%encode_decoded.
  exists (big_endian (take 8 (MD5.digest bytes)) mod 10 ^ 18).
  split; [apply Z.mod_pos_bound; lia|].
  auto using product_id_eq, store_id_eq.
Qed.

(** C3: the store identifier and the product identifier derived from one
    name differ, the former being the latter plus [STORE_OFFSET]. *)
Theorem same_name_ids_distinct (name : str) :
  Str.decoded name = true →
  ∃ s p, store_id name = Ok s ∧ product_id name = Ok p ∧
         s = p + STORE_OFFSET ∧ s ≠ p.
Proof.
  intros (h & Hh & Hp & Hs)%ids_of_decoded.
  exists (h + STORE_OFFSET), h. repeat split; auto.
  unfold STORE_OFFSET. lia.
Qed.

Lemma same_name_ids_distinct_witness :
  Str.decoded (lit "Acme SF") = true ∧
  ∃ s p, store_id (lit "Acme SF") = Ok s ∧ product_id (lit "Acme SF") = Ok p ∧
         s = p + STORE_OFFSET ∧ s ≠ p.
Proof.
  split; [reflexivity|].
  exact (same_name_ids_distinct (lit "Acme SF") eq_refl).
Defined.

(** C10: for any two names, the store identifier of the first lies in
    [STORE_OFFSET, STORE_OFFSET + 10^18) and the product identifier of the
    second in [0, 10^18); as [STORE_OFFSET] is 4261931000000000000, above
    10^18, the former is strictly greater. *)
Theorem store_ids_above_product_ids (store_name item_name : str) :
  Str.decoded store_name = true →
  Str.decoded item_name = true →
  ∃ s p, store_id store_name = Ok s ∧ product_id item_name = Ok p ∧
         STORE_OFFSET ≤ s < STORE_OFFSET + 10 ^ 18 ∧
         0 ≤ p < 10 ^ 18 ∧
         STORE_OFFSET = 4261931000000000000 ∧
         10 ^ 18 < STORE_OFFSET ∧
         p < s.
Proof.
  intros (h1 & Hh1 & _ & Hs)%ids_of_decoded (h2 & Hh2 & Hp & _)%ids_of_decoded.
  exists (h1 + STORE_OFFSET), h2.
  split; [done|]. split; [done|].
  unfold STORE_OFFSET. lia.
Qed.

Lemma store_ids_above_product_ids_witness :
  Str.decoded (lit "Acme SF") = true ∧
  Str.decoded (lit "Basmati Rice") = true ∧
  ∃ s p, store_id (lit "Acme SF") = Ok s ∧
         product_id (lit "Basmati Rice") = Ok p ∧ p < s.
Proof.
  split; [reflexivity|]. split; [reflexivity|].
  destruct (store_ids_above_product_ids (lit "Acme SF") (lit "Basmati Rice")
              eq_refl eq_refl) as (s & p & Hs & Hp & _ & _ & _ & _ & Hlt).
  exists s, p. auto.
Defined.

(** ** Dictionaries *)

Lemma dict_get_set_eq {V} k (v : V) d : Dict.get k (Dict.set k v d) = Some v.
Proof.
  induction d as [|[k' v'] d IH]; simpl.
  - by rewrite decide_True.
  - destruct (decide (k' = k)) as [->|Hne]; simpl.
    + by rewrite decide_True.
    + by rewrite decide_False.
Qed.

Lemma dict_get_set_ne {V} k k' (v : V) d :
  k ≠ k' → Dict.get k' (Dict.set k v d) = Dict.get k' d.
Proof.
  intros Hne. induction d as [|[k0 v0] d IH]; simpl.
  - by rewrite decide_False.
  - destruct (decide (k0 = k)) as [->|Hne0]; simpl.
    + by rewrite !decide_False.
    + by rewrite IH.
Qed.

Lemma dict_get_none {V} k (d : dict V) :
  Dict.get k d = None ↔ k ∉ Dict.keys d.
Proof.
  unfold Dict.keys. induction d as [|[k' v'] d IH]; simpl.
  - split; [intros _; apply not_elem_of_nil|done].
  - rewrite not_elem_of_cons. destruct (decide (k' = k)) as [->|Hne].
    + split; [done|]. by intros [? _].
    + rewrite IH. split; [auto|]. by intros [_ ?].
Qed.

Lemma dict_set_fresh {V} k (v : V) d :
  Dict.get k d = None → Dict.set k v d = d ++ [(k, v)].
Proof.
  induction d as [|[k' v'] d IH]; simpl; [done|].
  destruct (decide (k' = k)); [done|]. intros H. by rewrite IH.
Qed.

Lemma dict_mem_false {V} k (d : dict V) :
  Dict.mem k d = false ↔ Dict.get k d = None.
Proof. unfold Dict.mem. destruct (Dict.get k d); split; done. Qed.

(** ** Currency fields *)

Lemma replace_drop c s :
  Str.replace [c] [] s = filter (λ x, x ≠ c) s.
Proof.
  unfold Str.replace. induction s as [|x s IH]; [done|].
  rewrite filter_cons. cbn [Str.replace_from Str.startswith length Nat.sub app].
  destruct (N.eqb_spec c x) as [->|Hne].
  - rewrite decide_False by auto. apply IH.
  - rewrite decide_True by auto. by rewrite IH.
Qed.

Lemma currency_text s :
  Str.replace (lit ",") [] (Str.replace (lit "$") [] s) =
  filter (λ c, c ≠ 0x24 ∧ c ≠ 0x2C)%N s.
Proof.
  change (lit ",") with [0x2C%N]. change (lit "$") with [0x24%N].
  rewrite !replace_drop. induction s as [|x s IH]; [done|].
  rewrite !filter_cons.
  destruct (decide (x ≠ 0x24%N)) as [H1|H1].
  - rewrite filter_cons. destruct (decide (x ≠ 0x2C%N)) as [H2|H2].
    + rewrite decide_True by done. by rewrite IH.
    + rewrite decide_False by (intros [_ ?]; done). apply IH.
  - rewrite decide_False by (intros [? _]; done). apply IH.
Qed.

Lemma parse_price_eq r :
  parse_price r =
  match get r (lit "Item Price") (lit "0") with
  | PyNone => Fin 0
  | PyStr s =>
      try_except (Float.of_str (filter (λ c, c ≠ 0x24 ∧ c ≠ 0x2C)%N s)) (Fin 0)
  end.
Proof.
  unfold parse_price. destruct (get r _ _) as [|s]; simpl; [done|].
  by rewrite currency_text.
Qed.

Lemma total_parse_eq r :
  total_parse r =
  match get r (lit "Total") (lit "0") with
  | PyNone => Raise AttributeError
  | PyStr s => Float.of_str (filter (λ c, c ≠ 0x24 ∧ c ≠ 0x2C)%N s)
  end.
Proof.
  unfold total_parse. destruct (get r _ _) as [|s]; [done|].
  cbn [val_replace mbind result_bind Float.of_val]. by rewrite currency_text.
Qed.

(** C6: a price, like a total, is parsed from the field with every "$" and
    "," removed, so that "$1,234.50" gives 1234.50; a price text that is no
    number, such as "N/A", gives 0.0 and raises nothing. *)
Theorem currency_parsing :
  (∀ r : row,
     parse_price r =
     match get r (lit "Item Price") (lit "0") with
     | PyNone => Fin 0
     | PyStr s =>
         try_except (Float.of_str (filter (λ c, c ≠ 0x24 ∧ c ≠ 0x2C)%N s)) (Fin 0)
     end) ∧
  (∀ r : row,
     total_parse r =
     match get r (lit "Total") (lit "0") with
     | PyNone => Raise AttributeError
     | PyStr s => Float.of_str (filter (λ c, c ≠ 0x24 ∧ c ≠ 0x2C)%N s)
     end) ∧
  parse_price [(lit "Item Price", PyStr (lit "$1,234.50"))] = Fin (2469 # 2) ∧
  Qeq (2469 # 2) 1234.50 ∧
  Float.of_str (lit "N/A") = Raise ValueError ∧
  parse_price [(lit "Item Price", PyStr (lit "N/A"))] = Fin 0.
Proof.
  split; [apply parse_price_eq|]. split; [apply total_parse_eq|].
  repeat split; vm_compute; reflexivity.
Qed.

(** ** Quantity and total *)

Lemma parse_amounts_eq r :
  parse_amounts r =
  match quantity_parse r, total_parse r with
  | Ok q, Ok t => (PFloat q, PFloat t)
  | _, _ => (PInt 1, PInt 0)
  end.
Proof.
  unfold parse_amounts, quantity_parse, total_parse.
  destruct (Float.of_val (get r (lit "Quantity") (lit "1"))) as [q|]; simpl; [|done].
  destruct (val_replace _ _ (get r (lit "Total") (lit "0"))) as [t1|]; simpl; [|done].
  destruct (val_replace _ _ t1) as [t2|]; simpl; [|done].
  by destruct (Float.of_val t2).
Qed.

Lemma add_product_get products r item_name products' :
  add_product products r item_name = Ok products' →
  Str.nonempty item_name = true →
  is_Some (Dict.get item_name products').
Proof.
  unfold add_product. intros H Hne. rewrite Hne in H. simpl in H.
  destruct (Dict.mem item_name products) eqn:Hmem; simpl in H.
  - injection H as <-. unfold Dict.mem in Hmem.
    destruct (Dict.get item_name products); [eauto|done].
  - destruct (product_id item_name); simpl in H; [|done].
    destruct (brand_of item_name); simpl in H; [|done].
    injection H as <-. rewrite dict_get_set_eq. eauto.
Qed.

(** C7, as the code has it: a row that is collected is always recorded; when
    the quantity and the total both parse they are recorded as parsed, and
    when either fails the quantity recorded is 1 and the total recorded
    is 0.  Reading the row raises nothing in either case. *)
Theorem amounts_fallback products invoice_items r item_name inv products' :
  val_strip (get r (lit "Item Name") []) = Ok item_name →
  add_product products r item_name = Ok products' →
  get r (lit "Invoice ID") [] = PyStr inv →
  Str.nonempty inv = true →
  Str.nonempty item_name = true →
  ∃ p quantity total,
    Dict.get item_name products' = Some p ∧
    read_row (products, invoice_items) r =
      Ok (products',
          invoice_items ++ [InvoiceItem inv item_name quantity (price p) total]) ∧
    (quantity, total) =
      match quantity_parse r, total_parse r with
      | Ok q, Ok t => (PFloat q, PFloat t)
      | _, _ => (PInt 1, PInt 0)
      end.
Proof.
  intros Hname Hadd Hinv Hi Hn.
  destruct (add_product_get _ _ _ _ Hadd Hn) as [p Hp].
  exists p, (parse_amounts r).1, (parse_amounts r).2.
  split; [done|]. split.
  - unfold read_row. rewrite Hname. simpl. rewrite Hadd. simpl.
    unfold add_item. rewrite Hinv, Hi, Hn. simpl.
    destruct (parse_amounts r). by rewrite Hp.
  - rewrite <-parse_amounts_eq. by destruct (parse_amounts r).
Qed.

(** ** Order on strings *)

Lemma leb_refl a : Str.leb a a = true.
Proof.
  induction a as [|x a IH]; simpl; [done|].
  by rewrite N.eqb_refl, IH, orb_true_r.
Qed.

Lemma leb_cons x y a b :
  Str.leb (x :: a) (y :: b) = true ↔ (x < y)%N ∨ (x = y ∧ Str.leb a b = true).
Proof.
  simpl. rewrite orb_true_iff, andb_true_iff, N.ltb_lt, N.eqb_eq. tauto.
Qed.

#[global] Instance le_total : Total Str.le.
Proof.
  unfold Str.le. intros a. induction a as [|x a IH]; intros [|y b]; simpl; auto.
  rewrite !orb_true_iff, !andb_true_iff, !N.ltb_lt, !N.eqb_eq.
  destruct (IH b); destruct (N.lt_trichotomy x y) as [?|[?|?]]; auto.
Qed.

#[global] Instance le_trans : Transitive Str.le.
Proof.
  unfold Str.le. intros a. induction a as [|x a IH]; intros [|y b] [|z c]; try done.
  rewrite !leb_cons. intros [?|[-> ?]] [?|[-> ?]]; eauto; left; lia.
Qed.

#[global] Instance le_antisym : AntiSymm (=) Str.le.
Proof.
  unfold Str.le. intros a. induction a as [|x a IH]; intros [|y b]; try done.
  rewrite !leb_cons. intros [?|[-> ?]] [?|[? ?]]; try lia.
  f_equal. by apply IH.
Qed.

Lemma lt_lex a b : Str.lt a b ↔ lex_lt a b.
Proof.
  unfold Str.lt, Str.le. split.
  - revert b. induction a as [|x a IH]; intros [|y b] [Hle Hne]; try done.
    + constructor.
    + apply leb_cons in Hle as [?|[-> ?]]; [by constructor|].
      apply lex_lt_tail, IH. split; [done|congruence].
  - induction 1 as [y b|x y a b Hlt|x a b _ [IH1 IH2]].
    + done.
    + split; [apply leb_cons; auto|]. intros [= -> _]. lia.
    + split; [apply leb_cons; auto|]. congruence.
Qed.

Lemma sorted_strict (l : list str) :
  StronglySorted Str.le l → NoDup l → StronglySorted lex_lt l.
Proof.
  induction 1 as [|x l Hs IH Hall]; intros Hnd; [constructor|].
  apply NoDup_cons in Hnd as [Hx Hnd]. constructor; [auto|].
  rewrite Forall_forall in Hall |- *. intros y Hy.
  apply lt_lex. split; [auto|]. intros ->. done.
Qed.

(** ** The store synthesizer *)

Lemma stores_read_row customers r :
  Stores.read_row customers r =
  match field (lit "Customer Name") r with
  | Some s =>
      Ok (if Str.nonempty (Str.strip s) then {[Str.strip s]} ∪ customers
          else customers)
  | None => Raise AttributeError
  end.
Proof.
  unfold Stores.read_row, field. by destruct (get r _ _).
Qed.

Lemma nonempty_ne (s : str) : Str.nonempty s = true ↔ s ≠ [].
Proof. by destruct s. Qed.

Lemma stores_read_rows customers rows :
  Forall (λ r, is_Some (field (lit "Customer Name") r)) rows →
  for_each Stores.read_row customers rows =
  Ok (list_to_set
        (filter (λ n, n ≠ []) (Str.strip <$> omap (field (lit "Customer Name")) rows))
      ∪ customers).
Proof.
  intros Hall. revert customers.
  induction Hall as [|r rows [s Hs] _ IH]; intros customers.
  - simpl. f_equal. set_solver.
  - cbn [for_each omap list_omap]. rewrite stores_read_row, Hs.
    cbn [mbind result_bind fmap list_fmap]. rewrite IH. f_equal.
    rewrite filter_cons. destruct (Str.strip s) as [|c n]; cbn [Str.nonempty].
    + by rewrite decide_False by auto.
    + rewrite decide_True by done. set_solver.
Qed.

Lemma stores_read_rows_complete customers rows customers' :
  for_each Stores.read_row customers rows = Ok customers' →
  Forall (λ r, is_Some (field (lit "Customer Name") r)) rows.
Proof.
  revert customers. induction rows as [|r rows IH]; intros customers; simpl.
  - constructor.
  - rewrite stores_read_row. destruct (field _ r) eqn:Hf; simpl; [|done].
    intros H. constructor; eauto.
Qed.

Lemma read_customers_spec f :
  complete (lit "Customer Name") f →
  Stores.read_customers f = Ok (list_to_set (names (lit "Customer Name") f)).
Proof.
  intros H. unfold Stores.read_customers. rewrite stores_read_rows by done.
  f_equal. unfold names, column. set_solver.
Qed.

Lemma emit_eq values n :
  Stores.emit values n =
  match store_id n with
  | Ok sid =>
      Ok (values ++
          [Stores.Store sid (Str.replace (lit "'") (lit "''") n)
             (Stores.city_of n) (Stores.state_of (Stores.city_of n))])
  | Raise e => Raise e
  end.
Proof. unfold Stores.emit. by destruct (store_id n). Qed.

Lemma emit_rows values todo out :
  for_each Stores.emit values todo = Ok out →
  ∃ stores, out = values ++ stores ∧ Forall2 emitted_for todo stores.
Proof.
  revert values. induction todo as [|n todo IH]; intros values; cbn [for_each].
  - intros [= <-]. exists []. by rewrite app_nil_r.
  - rewrite emit_eq. destruct (store_id n) as [sid|] eqn:Hid; [|done].
    cbn [mbind result_bind].
    intros (stores & -> & Hall)%IH. eexists (_ :: stores).
    rewrite <-app_assoc. split; [done|]. constructor; [|done].
    by repeat split.
Qed.

Lemma emit_rows_ok values todo :
  Forall (λ n, Str.decoded n = true) todo →
  ∃ out, for_each Stores.emit values todo = Ok out.
Proof.
  intros Hall. revert values.
  induction Hall as [|n todo Hn _ IH]; intros values; cbn [for_each]; [eauto|].
  rewrite emit_eq.
  destruct (ids_of_decoded n Hn) as (h & _ & _ & ->). apply IH.
Qed.

Lemma for_each_app {S X} (body : S → X → result S) st xs ys :
  for_each body st (xs ++ ys) =
  for_each body st xs ≫= λ st', for_each body st' ys.
Proof.
  revert st. induction xs as [|x xs IH]; intros st; cbn [for_each app]; [done|].
  destruct (body st x); cbn [mbind result_bind]; [apply IH|done].
Qed.

(** ** Text read from the file *)

Lemma lstrip_suffix s : Str.lstrip s `suffix_of` s.
Proof.
  induction s as [|c s IH]; simpl; [done|].
  destruct (Str.isspace c); [by apply suffix_cons_r|done].
Qed.

Lemma lstrip_head c s : Str.lstrip (c :: s) = c :: s ↔ Str.isspace c = false.
Proof.
  simpl. destruct (Str.isspace c); [|done]. split; [|done].
  intros H. pose proof (lstrip_suffix s) as Hs. rewrite H in Hs.
  apply suffix_length in Hs. simpl in Hs. lia.
Qed.

Lemma lstrip_nonspace s c t : Str.lstrip s = c :: t → Str.isspace c = false.
Proof.
  induction s as [|x s IH]; simpl; [done|].
  destruct (Str.isspace x) eqn:Hx; [done|]. by intros [= <- _].
Qed.

Lemma strip_forall (P : N → Prop) s : Forall P s → Forall P (Str.strip s).
Proof.
  intros H. unfold Str.strip, Str.rstrip.
  assert (∀ t, Forall P t → Forall P (Str.lstrip t)) as Hl.
  { intros t Ht. destruct (lstrip_suffix t) as [k Hk].
    rewrite Hk in Ht. by apply Forall_app in Ht as [_ ?]. }
  by apply Forall_reverse, Hl, Forall_reverse, Hl.
Qed.

Lemma strip_decoded s : Str.decoded s = true → Str.decoded (Str.strip s) = true.
Proof.
  unfold Str.decoded. rewrite <-!Is_true_true, !forallb_True. apply strip_forall.
Qed.

(** A stripped text does not begin with whitespace. *)
Lemma strip_head s c t : Str.strip s = c :: t → Str.isspace c = false.
Proof.
  unfold Str.strip, Str.rstrip. intros H.
  destruct (Str.lstrip s) as [|x u] eqn:Hu; [done|].
  apply lstrip_nonspace in Hu.
  pose proof (lstrip_suffix (reverse (x :: u))) as Hsuf.
  apply suffix_prefix_reverse in Hsuf.
  rewrite reverse_involutive, H in Hsuf.
  destruct Hsuf as [k Hk]. by injection Hk as <- _.
Qed.

Lemma dict_set_values {V} (Q : V → Prop) k v (d : dict V) :
  Forall (λ e, Q e.2) d → Q v → Forall (λ e, Q e.2) (Dict.set k v d).
Proof.
  intros Hd Hv. induction Hd as [|[k' v'] d Hx Hd IH]; simpl.
  - by constructor.
  - destruct (decide (k' = k)); constructor; auto.
Qed.

Lemma dict_get_values {V} (Q : V → Prop) k v (d : dict V) :
  Forall (λ e, Q e.2) d → Dict.get k d = Some v → Q v.
Proof.
  induction 1 as [|[k' v'] d Hx _ IH]; simpl; [done|].
  destruct (decide (k' = k)); [by intros [= <-]|done].
Qed.

Lemma dict_row_values (Q : pyval → Prop) header record :
  Q PyNone → Forall (λ s, Q (PyStr s)) record →
  Forall (λ e, Q e.2) (dict_row header record).
Proof.
  intros Hnone Hrec. unfold dict_row.
  assert (∀ l (d : row), Forall (λ e, Q e.2) d →
            Forall (λ e, Q e.2) (foldl (λ d key, Dict.set key PyNone d) d l)) as H1.
  { intros l. induction l as [|k l IH]; intros d Hd; simpl; [done|].
    by apply IH, dict_set_values. }
  assert (∀ (l : list (str * str)) (d : row),
            Forall (λ kv, Q (PyStr kv.2)) l → Forall (λ e, Q e.2) d →
            Forall (λ e, Q e.2) (foldl (λ d kv, Dict.set kv.1 (PyStr kv.2) d) d l))
    as H2.
  { intros l. induction l as [|kv l IH]; intros d Hl Hd; simpl; [done|].
    inversion_clear Hl. by apply IH; [|apply dict_set_values]. }
  apply H1, H2; [|constructor].
  apply Forall_forall. intros [k v] Hin.
  apply elem_of_zip_r in Hin. exact (proj1 (Forall_forall _ _) Hrec _ Hin).
Qed.

Lemma field_decoded f key r s :
  decoded_csv f → r ∈ DictReader f → field key r = Some s →
  Str.decoded s = true.
Proof.
  unfold decoded_csv, DictReader, field, get. intros Hf Hr Hs.
  apply list_elem_of_fmap in Hr as (record & -> & Hin).
  apply list_elem_of_filter in Hin as [_ Hin].
  rewrite Forall_forall in Hf. specialize (Hf _ Hin).
  pose proof (dict_row_values
                (λ v, match v with PyStr s => Str.decoded s = true | PyNone => True end)
                (fieldnames f) record I Hf) as Hrow.
  destruct (Dict.get key (dict_row (fieldnames f) record)) as [v|] eqn:Hget; simpl in Hs.
  - apply (dict_get_values _ _ _ _ Hrow) in Hget. destruct v; [done|].
    by injection Hs as <-.
  - by injection Hs as <-.
Qed.

Lemma names_decoded f key :
  decoded_csv f → Forall (λ n, Str.decoded n = true) (names key f).
Proof.
  intros Hf. unfold names, column. apply Forall_forall. intros n Hn.
  apply list_elem_of_filter in Hn as [_ Hn].
  apply list_elem_of_fmap in Hn as (s & -> & Hs).
  apply list_elem_of_omap in Hs as (r & Hr & Hs).
  eapply strip_decoded, field_decoded; eauto.
Qed.

(** ** The emitted stores *)

Lemma sorted_perm (customers : gset str) :
  Stores.sorted customers ≡ₚ elements customers.
Proof. apply merge_sort_Permutation. Qed.

Lemma sorted_elem (customers : gset str) n :
  n ∈ Stores.sorted customers ↔ n ∈ customers.
Proof. by rewrite sorted_perm, elem_of_elements. Qed.

Lemma sorted_nodup (customers : gset str) : NoDup (Stores.sorted customers).
Proof. rewrite sorted_perm. apply NoDup_elements. Qed.

Lemma sorted_increasing (customers : gset str) :
  StronglySorted lex_lt (Stores.sorted customers).
Proof.
  apply sorted_strict; [|apply sorted_nodup].
  apply StronglySorted_merge_sort; apply _.
Qed.

Lemma sorted_names_length (l : list str) :
  length (Stores.sorted (list_to_set l)) = length (remove_dups l).
Proof.
  apply Permutation_length, NoDup_Permutation.
  - apply sorted_nodup.
  - apply NoDup_remove_dups.
  - intros n. by rewrite sorted_elem, elem_of_list_to_set, elem_of_remove_dups.
Qed.

Lemma create_stores_inv f stores :
  Stores.create_stores f = Ok stores →
  complete (lit "Customer Name") f ∧
  Forall2 emitted_for
    (Stores.sorted (list_to_set (names (lit "Customer Name") f))) stores.
Proof.
  unfold Stores.create_stores.
  destruct (Stores.read_customers f) as [customers|] eqn:Hread; [|done].
  cbn [mbind result_bind]. intros Hemit.
  assert (complete (lit "Customer Name") f) as Hc.
  { eapply stores_read_rows_complete, Hread. }
  split; [done|].
  rewrite read_customers_spec in Hread by done. injection Hread as <-.
  apply emit_rows in Hemit as (out & -> & Hall). done.
Qed.

Lemma create_stores_ok f :
  decoded_csv f → complete (lit "Customer Name") f →
  ∃ stores, Stores.create_stores f = Ok stores.
Proof.
  intros Hd Hc. unfold Stores.create_stores.
  rewrite read_customers_spec by done. cbn [mbind result_bind].
  apply emit_rows_ok, Forall_forall. intros n Hn.
  apply sorted_elem, elem_of_list_to_set in Hn.
  pose proof (names_decoded f (lit "Customer Name") Hd) as Hall.
  rewrite Forall_forall in Hall. auto.
Qed.

(** ** First occurrences *)

Lemma elem_of_first_occurrences l x : x ∈ first_occurrences l ↔ x ∈ l.
Proof.
  induction l as [|y l IH]; simpl; [done|].
  rewrite !elem_of_cons, list_elem_of_filter, IH.
  destruct (decide (x = y)); naive_solver.
Qed.

Lemma first_occurrences_nodup l : NoDup (first_occurrences l).
Proof.
  induction l as [|y l IH]; simpl; constructor.
  - rewrite list_elem_of_filter. naive_solver.
  - by apply NoDup_filter.
Qed.

Lemma first_occurrences_snoc l x :
  first_occurrences (l ++ [x]) =
  if decide (x ∈ l) then first_occurrences l else first_occurrences l ++ [x].
Proof.
  induction l as [|y l IH]; cbn [app first_occurrences].
  - destruct (decide (x ∈ [])) as [Hin|_]; [|done]. by apply elem_of_nil in Hin.
  - rewrite IH. destruct (decide (x ∈ l)) as [Hin|Hin];
      destruct (decide (x ∈ y :: l)) as [Hin'|Hin']; rewrite elem_of_cons in Hin'.
    + done.
    + naive_solver.
    + destruct Hin' as [->|?]; [|done].
      rewrite filter_app, filter_cons, filter_nil.
      rewrite decide_False by auto. by rewrite app_nil_r.
    + rewrite filter_app, filter_cons, filter_nil.
      by rewrite decide_True by naive_solver.
Qed.

Lemma first_occurrences_length l :
  length (first_occurrences l) = length (remove_dups l).
Proof.
  apply Permutation_length, NoDup_Permutation.
  - apply first_occurrences_nodup.
  - apply NoDup_remove_dups.
  - intros x. by rewrite elem_of_first_occurrences, elem_of_remove_dups.
Qed.

(** ** More on dictionaries *)

Lemma dict_get_app {V} k k' (v : V) d :
  Dict.get k (d ++ [(k', v)]) =
  match Dict.get k d with
  | Some x => Some x
  | None => if decide (k' = k) then Some v else None
  end.
Proof.
  induction d as [|[k0 v0] d IH]; simpl; [done|].
  by destruct (decide (k0 = k)).
Qed.

Lemma dict_get_elem {V} k (v : V) d :
  NoDup (Dict.keys d) → (k, v) ∈ d → Dict.get k d = Some v.
Proof.
  unfold Dict.keys. induction d as [|[k0 v0] d IH]; simpl.
  - intros _ H. by apply elem_of_nil in H.
  - intros [Hk Hnd]%NoDup_cons [[= -> ->]|Hin]%elem_of_cons.
    + by rewrite decide_True.
    + rewrite decide_False; [auto|]. intros ->. apply Hk.
      apply list_elem_of_fmap. by exists (k, v).
Qed.

Lemma filter_none {A} (P : A → Prop) `{∀ x, Decision (P x)} (l : list A) :
  Forall (λ x, ¬ P x) l → filter P l = [].
Proof.
  induction 1 as [|x l Hx _ IH]; [done|].
  by rewrite filter_cons, decide_False.
Qed.

Lemma dict_get_filter {V} k (v : V) d :
  NoDup (Dict.keys d) → Dict.get k d = Some v →
  filter (λ e, e.1 = k) d = [(k, v)].
Proof.
  unfold Dict.keys. induction d as [|[k0 v0] d IH]; simpl; [done|].
  intros [Hk Hnd]%NoDup_cons. rewrite filter_cons. simpl.
  destruct (decide (k0 = k)) as [->|Hne].
  - intros [= ->]. f_equal. apply filter_none, Forall_forall.
    intros [k1 v1] Hin Heq. simpl in Heq. subst k1. apply Hk.
    apply list_elem_of_fmap. by exists (k, v1).
  - auto.
Qed.

(** ** The product populator *)

Lemma add_product_eq products r n :
  add_product products r n =
  if Str.nonempty n && negb (Dict.mem n products) then
    match product_id n, brand_of n with
    | Ok pid, Ok b =>
        Ok (products ++ [(n, Product pid n (parse_price r) (category_of n) b)])
    | Raise e, _ | Ok _, Raise e => Raise e
    end
  else Ok products.
Proof.
  unfold add_product. destruct (Str.nonempty n); [|done].
  destruct (Dict.mem n products) eqn:Hmem; [done|]. cbn [andb negb].
  destruct (product_id n); [|done]. cbn [mbind result_bind].
  destruct (brand_of n); [|done]. cbn [mbind result_bind].
  by rewrite dict_set_fresh by by apply dict_mem_false.
Qed.

Lemma add_product_inv products r n products' :
  add_product products r n = Ok products' →
  (n ≠ [] ∧ Dict.get n products = None ∧
   ∃ p, product_for r n p ∧ products' = products ++ [(n, p)]) ∨
  ((n = [] ∨ is_Some (Dict.get n products)) ∧ products' = products).
Proof.
  rewrite add_product_eq. destruct n as [|c n]; [intros [= <-]; auto|].
  cbn [Str.nonempty andb]. unfold Dict.mem.
  destruct (Dict.get (c :: n) products) as [p0|] eqn:Hget; cbn [negb].
  { intros [= <-]. right. eauto. }
  destruct (product_id (c :: n)) as [pid|] eqn:Hid; [|done].
  destruct (brand_of (c :: n)) as [b|] eqn:Hb; [|done].
  intros [= <-]. left. repeat split; [done|]. eexists. split; [|done].
  by repeat split.
Qed.

Lemma read_row_inv products items r products' items' :
  read_row (products, items) r = Ok (products', items') →
  ∃ s, field (lit "Item Name") r = Some s ∧
       add_product products r (Str.strip s) = Ok products'.
Proof.
  unfold read_row, field.
  destruct (get r (lit "Item Name") []) as [|s]; [done|].
  cbn [val_strip mbind result_bind].
  destruct (add_product products r (Str.strip s)) as [ps|] eqn:Hadd; [|done].
  cbn [mbind result_bind].
  destruct (add_item ps items r (Str.strip s)); [|done].
  cbn [mbind result_bind]. intros [= <- _]. eauto.
Qed.

Lemma first_row_of_snoc rows n r r' :
  first_row_of rows n r → first_row_of (rows ++ [r']) n r.
Proof.
  intros (before & after & s & -> & Hs & Hn & Hb).
  exists before, (after ++ [r']), s. by rewrite <-app_assoc.
Qed.

Lemma stripped_names_snoc key (rows : list row) r s :
  field key r = Some s →
  filter (λ n, n ≠ []) (Str.strip <$> omap (field key) (rows ++ [r])) =
  filter (λ n, n ≠ []) (Str.strip <$> omap (field key) rows) ++
  (if decide (Str.strip s ≠ []) then [Str.strip s] else []).
Proof.
  intros Hs. rewrite omap_app, fmap_app, filter_app. f_equal.
  cbn [omap list_omap]. rewrite Hs. cbn [fmap list_fmap].
  by rewrite filter_cons, filter_nil.
Qed.

Lemma stripped_names_elem key (rows : list row) n :
  n ∈ filter (λ n, n ≠ []) (Str.strip <$> omap (field key) rows) ↔
  n ≠ [] ∧ ∃ r s, r ∈ rows ∧ field key r = Some s ∧ Str.strip s = n.
Proof.
  rewrite list_elem_of_filter, list_elem_of_fmap.
  setoid_rewrite list_elem_of_omap. naive_solver.
Qed.

Lemma read_rows_inv rows products items :
  for_each read_row ([], []) rows = Ok (products, items) →
  Forall (λ r, is_Some (field (lit "Item Name") r)) rows ∧
  Dict.keys products =
    first_occurrences
      (filter (λ n, n ≠ []) (Str.strip <$> omap (field (lit "Item Name")) rows)) ∧
  ∀ n p, Dict.get n products = Some p →
         ∃ r, first_row_of rows n r ∧ product_for r n p.
Proof.
  revert products items.
  induction rows as [|r rows IH] using rev_ind; intros products items.
  { intros [= <- <-]. repeat split; [constructor|done]. }
  rewrite for_each_app.
  destruct (for_each read_row ([], []) rows) as [[ps0 is0]|] eqn:Hrows; [|done].
  cbn [mbind result_bind for_each].
  destruct (read_row (ps0, is0) r) as [[ps1 is1]|] eqn:Hrow; [|done].
  cbn [mbind result_bind]. intros [= -> ->].
  destruct (IH _ _ eq_refl) as (Hall & Hkeys & Hfirst).
  apply read_row_inv in Hrow as (s & Hs & Hadd).
  split; [apply Forall_app; split; [done|]; constructor; eauto|].
  rewrite (stripped_names_snoc _ _ _ _ Hs).
  set (seen := filter (λ n, n ≠ [])
                 (Str.strip <$> omap (field (lit "Item Name")) rows)) in *.
  assert (∀ n, n ∈ Dict.keys ps0 ↔ n ∈ seen) as Hin.
  { intros n. by rewrite Hkeys, elem_of_first_occurrences. }
  apply add_product_inv in Hadd
    as [(Hne & Hnone & p & Hp & ->)|([Hnil|[p0 Hsome]] & ->)].
  - assert (Str.strip s ∉ seen) as Hfresh.
    { rewrite <-Hin. by apply dict_get_none. }
    rewrite decide_True by done.
    rewrite first_occurrences_snoc, decide_False by done. split.
    { unfold Dict.keys in *. by rewrite fmap_app, Hkeys. }
    intros n q. rewrite dict_get_app.
    destruct (Dict.get n ps0) as [q0|] eqn:Hq0.
    { intros [= <-]. destruct (Hfirst _ _ Hq0) as (r0 & ? & ?).
      eauto using first_row_of_snoc. }
    destruct (decide (Str.strip s = n)) as [<-|]; [|done].
    intros [= <-]. exists r. split; [|done].
    exists rows, [], s. repeat split; [done..|].
    apply Forall_forall. intros r' Hr' s' Hs' Heq. apply Hfresh.
    apply stripped_names_elem. eauto 6.
  - rewrite Hnil, decide_False, app_nil_r by auto. split; [done|].
    intros n q Hq. destruct (Hfirst _ _ Hq) as (r0 & ? & ?).
    eauto using first_row_of_snoc.
  - assert (Str.strip s ∈ seen) as Hold.
    { apply Hin. destruct (decide (Str.strip s ∈ Dict.keys ps0)) as [|Hn]; [done|].
      apply dict_get_none in Hn. congruence. }
    split.
    + destruct (decide (Str.strip s ≠ [])); [|by rewrite app_nil_r].
      by rewrite first_occurrences_snoc, decide_True.
    + intros n q Hq. destruct (Hfirst _ _ Hq) as (r0 & ? & ?).
      eauto using first_row_of_snoc.
Qed.

Lemma read_csv_inv f products items :
  read_csv f = Ok (products, items) →
  complete (lit "Item Name") f ∧
  Dict.keys products = first_occurrences (names (lit "Item Name") f) ∧
  ∀ n p, Dict.get n products = Some p →
         ∃ r, first_row_of (DictReader f) n r ∧ product_for r n p.
Proof. apply read_rows_inv. Qed.

(** ** The reading loop completes *)

Lemma split_from_nonempty cur s : cur ≠ [] → Str.split_from cur s ≠ [].
Proof.
  revert cur. induction s as [|c s IH]; intros cur Hcur; simpl.
  - by destruct cur.
  - destruct (Str.isspace c); [by destruct cur|]. by apply IH.
Qed.

Lemma brand_of_stripped s : ∃ b, brand_of (Str.strip s) = Ok b.
Proof.
  unfold brand_of. destruct (Str.strip s) as [|c t] eqn:Hs; [by eexists|].
  destruct (Str.contains _ _); [|eauto].
  unfold Str.split. cbn [Str.split_from].
  rewrite (strip_head _ _ _ Hs).
  pose proof (split_from_nonempty [c] t) as Hne.
  destruct (Str.split_from [c] t); [by destruct Hne|eauto].
Qed.

Lemma add_product_ok products r s :
  Str.decoded s = true →
  ∃ products', add_product products r (Str.strip s) = Ok products'.
Proof.
  intros Hd. rewrite add_product_eq.
  destruct (_ && _); [|eauto].
  destruct (ids_of_decoded _ (strip_decoded _ Hd)) as (h & _ & -> & _).
  destruct (brand_of_stripped s) as [b ->]. eauto.
Qed.

Lemma add_item_ok products items r n :
  (n ≠ [] → is_Some (Dict.get n products)) →
  ∃ items', add_item products items r n = Ok items'.
Proof.
  intros Hp. unfold add_item.
  destruct (get r (lit "Invoice ID") []) as [|inv]; [eauto|].
  destruct (Str.nonempty inv); [|eauto].
  destruct n as [|c n]; [eauto|]. cbn [Str.nonempty andb].
  destruct (parse_amounts r) as [q t0]. destruct Hp as [p0 ->]; [done|]. eauto.
Qed.

Lemma read_row_ok t r s :
  field (lit "Item Name") r = Some s → Str.decoded s = true →
  ∃ t', read_row t r = Ok t'.
Proof.
  intros Hs Hd. destruct t as [products items]. unfold read_row.
  unfold field in Hs. destruct (get r (lit "Item Name") []) as [|s0]; [done|].
  injection Hs as ->. cbn [val_strip mbind result_bind].
  destruct (add_product_ok products r s Hd) as [products' Hadd].
  rewrite Hadd. cbn [mbind result_bind].
  destruct (add_item_ok products' items r (Str.strip s)) as [items' ->]; [|eauto].
  intros Hne. apply (add_product_get _ _ _ _ Hadd). by apply nonempty_ne.
Qed.

Lemma read_rows_ok t rows :
  Forall (λ r, ∃ s, field (lit "Item Name") r = Some s ∧ Str.decoded s = true) rows →
  ∃ t', for_each read_row t rows = Ok t'.
Proof.
  intros Hall. revert t.
  induction Hall as [|r rows (s & Hs & Hd) _ IH]; intros t; cbn [for_each]; [eauto|].
  destruct (read_row_ok t r s Hs Hd) as [t' ->]. apply IH.
Qed.

Lemma read_csv_ok f :
  decoded_csv f → complete (lit "Item Name") f →
  ∃ products items, read_csv f = Ok (products, items).
Proof.
  intros Hd Hc. unfold read_csv.
  destruct (read_rows_ok ([], []) (DictReader f)) as [[products items] H]; [|eauto].
  apply Forall_forall. intros r Hr.
  destruct (proj1 (Forall_forall _ _) Hc r Hr) as [s Hs].
  eauto using field_decoded.
Qed.

(** ** Deduplication *)

(** C4, at a file with a short record: the file names one customer (one
    item) in a record that is complete, so one store row (one product entry)
    is due; but under the column the short record lacks the reader puts
    [None], the default of [row.get] does not apply, [strip] raises
    [AttributeError] on it, and the script stops with nothing synthesized. *)
Lemma short_record_aborts :
  names (lit "Customer Name") Sample.short_customer = [lit "Acme"] ∧
  Stores.create_stores Sample.short_customer = Raise AttributeError ∧
  names (lit "Item Name") Sample.short_item = [lit "Salt"] ∧
  read_csv Sample.short_item = Raise AttributeError.
Proof. repeat split; vm_compute; reflexivity. Qed.

(** X14: on a decoded file, when every record reaches the Customer Name
    column the store script completes and emits as many store rows as there
    are distinct non-blank stripped customer names, and when every record
    reaches the Item Name column the reading loop completes with as many
    product entries as there are distinct non-blank stripped item names. *)
Theorem deduplicated_counts f :
  decoded_csv f →
  (complete (lit "Customer Name") f →
   ∃ stores, Stores.create_stores f = Ok stores ∧
             length stores = length (remove_dups (names (lit "Customer Name") f))) ∧
  (complete (lit "Item Name") f →
   ∃ products items, read_csv f = Ok (products, items) ∧
             length products = length (remove_dups (names (lit "Item Name") f))).
Proof.
  intros Hd. split; intros Hc.
  - destruct (create_stores_ok f Hd Hc) as [stores Hs]. exists stores.
    split; [done|]. apply create_stores_inv in Hs as [_ Hall].
    apply Forall2_length in Hall. by rewrite <-Hall, sorted_names_length.
  - destruct (read_csv_ok f Hd Hc) as (products & items & Hr).
    exists products, items. split; [done|].
    apply read_csv_inv in Hr as (_ & Hkeys & _).
    rewrite <-first_occurrences_length, <-Hkeys. unfold Dict.keys.
    by rewrite length_fmap.
Qed.

Lemma deduplicated_counts_witness :
  decoded_csv Sample.invoices ∧
  complete (lit "Customer Name") Sample.invoices ∧
  complete (lit "Item Name") Sample.invoices ∧
  (∃ stores, Stores.create_stores Sample.invoices = Ok stores ∧ length stores = 2%nat) ∧
  (∃ products items,
     read_csv Sample.invoices = Ok (products, items) ∧ length products = 2%nat).
Proof.
  assert (decoded_csv Sample.invoices) as Hd
    by (apply (bool_decide_unpack _); vm_compute; reflexivity).
  assert (complete (lit "Customer Name") Sample.invoices) as Hc
    by (apply (bool_decide_unpack _); vm_compute; reflexivity).
  assert (complete (lit "Item Name") Sample.invoices) as Hi
    by (apply (bool_decide_unpack _); vm_compute; reflexivity).
  destruct (deduplicated_counts Sample.invoices Hd) as [Hstores Hproducts].
  split; [done|]. split; [done|]. split; [done|]. split.
  - destruct (Hstores Hc) as (stores & ? & Hlen). exists stores. split; [done|].
    rewrite Hlen. vm_compute. reflexivity.
  - destruct (Hproducts Hi) as (products & items & ? & Hlen).
    exists products, items. split; [done|]. rewrite Hlen. vm_compute. reflexivity.
Defined.

(** ** First-seen attributes *)

(** Two records share the empty Item Name at two prices and no product
    entry is made for it; a record ending before the Item Name column stops
    the run. *)
Lemma blank_name_makes_no_product :
  column (lit "Item Name") Sample.blank_items = [[]; []] ∧
  column (lit "Item Price") Sample.blank_items = [lit "$1.00"; lit "$2.00"] ∧
  read_csv Sample.blank_items = Ok ([], []) ∧
  read_csv Sample.short_item = Raise AttributeError.
Proof. repeat split; vm_compute; reflexivity. Qed.

(** C5, as the code has it: when every record reaches the Item Name column,
    each non-blank stripped item name has exactly one product entry, built
    from the first row carrying that name: its price is the price parsed
    from that row, with its identifier, category and brand derived from
    the name. *)
Theorem first_row_wins f n :
  decoded_csv f →
  complete (lit "Item Name") f →
  n ∈ names (lit "Item Name") f →
  ∃ products items r p,
    read_csv f = Ok (products, items) ∧
    first_row_of (DictReader f) n r ∧
    filter (λ e, e.1 = n) products = [(n, p)] ∧
    product_for r n p.
Proof.
  intros Hd Hc Hn.
  destruct (read_csv_ok f Hd Hc) as (products & items & Hr).
  destruct (read_csv_inv _ _ _ Hr) as (_ & Hkeys & Hfirst).
  destruct (Dict.get n products) as [p|] eqn:Hget.
  - destruct (Hfirst _ _ Hget) as (r & Hrow & Hp).
    exists products, items, r, p.
    split; [done|]. split; [done|]. split; [|done].
    apply dict_get_filter; [|done]. rewrite Hkeys. apply first_occurrences_nodup.
  - apply dict_get_none in Hget. destruct Hget.
    by rewrite Hkeys, elem_of_first_occurrences.
Qed.

Lemma first_row_wins_witness :
  decoded_csv Sample.invoices ∧
  complete (lit "Item Name") Sample.invoices ∧
  lit "Basmati Rice" ∈ names (lit "Item Name") Sample.invoices ∧
  ∃ products items r p,
    read_csv Sample.invoices = Ok (products, items) ∧
    first_row_of (DictReader Sample.invoices) (lit "Basmati Rice") r ∧
    filter (λ e, e.1 = lit "Basmati Rice") products = [(lit "Basmati Rice", p)] ∧
    product_for r (lit "Basmati Rice") p.
Proof.
  assert (decoded_csv Sample.invoices) as Hd
    by (apply (bool_decide_unpack _); vm_compute; reflexivity).
  assert (complete (lit "Item Name") Sample.invoices) as Hi
    by (apply (bool_decide_unpack _); vm_compute; reflexivity).
  assert (lit "Basmati Rice" ∈ names (lit "Item Name") Sample.invoices) as Hn
    by (apply (bool_decide_unpack _); vm_compute; reflexivity).
  split; [done|]. split; [done|]. split; [done|].
  exact (first_row_wins Sample.invoices (lit "Basmati Rice") Hd Hi Hn).
Defined.

(** On the sample, the one entry for the repeated item carries the price of
    its first line. *)
Example first_row_wins_sample :
  ∃ items, read_csv Sample.invoices =
    Ok ([(lit "Salt",
          Product 624518273476107074 (lit "Salt") (Fin 0) (lit "Grocery")
            (lit "Generic"));
         (lit "Basmati Rice", Sample.rice)], items).
Proof. eexists. vm_compute. reflexivity. Qed.

(** ** Quantity and total, at a row *)

(** A row whose quantity does not parse and whose total does: the quantity
    recorded is 1, which is not zero, and the total recorded is 0, not the
    24 that was read. *)
Lemma quantity_fallback_is_one :
  quantity_parse Sample.bad_quantity = Raise ValueError ∧
  total_parse Sample.bad_quantity = Ok (Fin 24) ∧
  read_row ([(lit "Basmati Rice", Sample.rice)], []) Sample.bad_quantity =
    Ok ([(lit "Basmati Rice", Sample.rice)],
        [InvoiceItem (lit "INV-1") (lit "Basmati Rice") (PInt 1) (Fin 10) (PInt 0)]) ∧
  ¬ zero_valued (PInt 1) ∧
  PInt 0 ≠ PFloat (Fin 24).
Proof. repeat split; try (vm_compute; reflexivity); vm_compute; discriminate. Qed.

Lemma amounts_fallback_witness :
  val_strip (get Sample.bad_quantity (lit "Item Name") []) = Ok (lit "Basmati Rice") ∧
  ∃ p quantity total,
    Dict.get (lit "Basmati Rice") [(lit "Basmati Rice", Sample.rice)] = Some p ∧
    read_row ([(lit "Basmati Rice", Sample.rice)], []) Sample.bad_quantity =
      Ok ([(lit "Basmati Rice", Sample.rice)],
          [] ++ [InvoiceItem (lit "INV-1") (lit "Basmati Rice") quantity (price p) total]) ∧
    (quantity, total) =
      match quantity_parse Sample.bad_quantity, total_parse Sample.bad_quantity with
      | Ok q, Ok t => (PFloat q, PFloat t)
      | _, _ => (PInt 1, PInt 0)
      end.
Proof.
  split; [vm_compute; reflexivity|].
  apply (amounts_fallback [(lit "Basmati Rice", Sample.rice)] [] Sample.bad_quantity
           (lit "Basmati Rice") (lit "INV-1") [(lit "Basmati Rice", Sample.rice)]);
    vm_compute; reflexivity.
Defined.

(** ** Order of emission *)

Lemma inserted_names (products : dict product) :
  NoDup (Dict.keys products) →
  (∀ n p, Dict.get n products = Some p → name p = n) →
  name <$> inserted_products products = Dict.keys products.
Proof.
  intros Hnd Hname. unfold inserted_products, Dict.keys.
  rewrite <-list_fmap_compose. apply list_fmap_ext.
  intros i [n p] Hi. simpl. apply Hname, dict_get_elem; [done|].
  by eapply list_elem_of_lookup_2.
Qed.

(** C8: the store rows are emitted in strictly increasing lexicographic
    order of the customer names they stand for, one per distinct name; the
    products are inserted in the order in which their names first occur in
    the file.  Both scripts complete on a file whose every record reaches
    the column they read. *)
Theorem emission_order f :
  (∀ stores, Stores.create_stores f = Ok stores →
     ∃ ns, Forall2 emitted_for ns stores ∧
           StronglySorted lex_lt ns ∧
           ∀ n, n ∈ ns ↔ n ∈ names (lit "Customer Name") f) ∧
  (∀ products items, read_csv f = Ok (products, items) →
     name <$> inserted_products products =
     first_occurrences (names (lit "Item Name") f)) ∧
  (decoded_csv f → complete (lit "Customer Name") f →
   ∃ stores, Stores.create_stores f = Ok stores) ∧
  (decoded_csv f → complete (lit "Item Name") f →
   ∃ products items, read_csv f = Ok (products, items)).
Proof.
  split; [|split; [|split]].
  - intros stores [_ Hall]%create_stores_inv.
    eexists. split; [exact Hall|]. split; [apply sorted_increasing|].
    intros n. by rewrite sorted_elem, elem_of_list_to_set.
  - intros products items (_ & Hkeys & Hfirst)%read_csv_inv.
    rewrite <-Hkeys. apply inserted_names.
    + rewrite Hkeys. apply first_occurrences_nodup.
    + intros n p Hget. destruct (Hfirst _ _ Hget) as (r & _ & Hp). apply Hp.
  - apply create_stores_ok.
  - apply read_csv_ok.
Qed.

(** On the sample, the stores come out sorted although the file has them
    the other way round, and the products come out in file order although
    sorting would swap them. *)
Example emission_order_sample :
  names (lit "Customer Name") Sample.invoices =
    [lit "Zed Foods"; lit "Acme SF"; lit "Acme SF"] ∧
  (Stores.sql_name <$> try_except (Stores.create_stores Sample.invoices) []) =
    [lit "Acme SF"; lit "Zed Foods"] ∧
  (name <$> inserted_products (try_except (read_csv Sample.invoices) ([], [])).1) =
    [lit "Salt"; lit "Basmati Rice"].
Proof. repeat split; vm_compute; reflexivity. Qed.

(** ** The recommendation statement *)

Section Recommendations.

Import Recommend.

Lemma cross_join_elem orders products o p :
  (o, p) ∈ cross_join orders products ↔ o ∈ orders ∧ p ∈ products.
Proof.
  unfold cross_join. rewrite list_elem_of_bind. split.
  - intros (o' & Hin & Ho). apply list_elem_of_bind in Hin as (p' & Hin & Hp).
    apply list_elem_of_singleton in Hin as [= -> ->]. done.
  - intros [Ho Hp]. exists o. split; [|done].
    apply list_elem_of_bind. exists p. split; [|done]. by apply list_elem_of_singleton.
Qed.

Lemma cross_join_length orders products :
  length (cross_join orders products) = (length orders * length products)%nat.
Proof.
  unfold cross_join. induction orders as [|o orders IH]; [done|].
  rewrite bind_cons, length_app, IH. simpl. f_equal.
  clear IH. induction products as [|p products IH]; [done|].
  rewrite bind_cons. simpl. by rewrite IH.
Qed.

Lemma select_length random n limit pairs :
  (length (select random n limit pairs) ≤ limit `min` length pairs)%nat.
Proof.
  revert n limit. induction pairs as [|[o p] pairs IH]; intros n limit.
  - destruct limit; cbn [select length]; lia.
  - destruct limit as [|limit]; [cbn [select length]; lia|]. cbn [select].
    destruct (Qlt_le_dec _ _).
    + specialize (IH (S (S n)) limit). cbn [length]. lia.
    + specialize (IH (S n) (S limit)). cbn [length]. lia.
Qed.

Lemma select_elem random n limit pairs row :
  row ∈ select random n limit pairs →
  ∃ o p k, (o, p) ∈ pairs ∧ row = select_row o p (random k).
Proof.
  revert n limit. induction pairs as [|[o p] pairs IH]; intros n limit.
  - destruct limit; simpl; intros H; by apply elem_of_nil in H.
  - destruct limit as [|limit]; [simpl; intros H; by apply elem_of_nil in H|].
    cbn [select]. destruct (Qlt_le_dec _ _).
    + intros [->|Hin]%elem_of_cons.
      * exists o, p, (S n). split; [apply elem_of_cons; auto|done].
      * destruct (IH _ _ Hin) as (o' & p' & k & ? & ?).
        exists o', p', k. split; [apply elem_of_cons; auto|done].
    + intros Hin. destruct (IH _ _ Hin) as (o' & p' & k & ? & ?).
      exists o', p', k. split; [apply elem_of_cons; auto|done].
Qed.

Lemma insert_sublist conflicts table rows :
  (insert conflicts table rows).2 `sublist_of` rows.
Proof.
  unfold insert.
  assert (∀ acc, ∃ new,
            (foldl (λ acc row,
                      if conflicts row (acc.1 ++ acc.2) then acc
                      else (acc.1, acc.2 ++ [row])) acc rows).2 = acc.2 ++ new ∧
            new `sublist_of` rows) as H.
  { induction rows as [|row rows IH]; intros acc; cbn [foldl].
    - exists []. by rewrite app_nil_r.
    - destruct (conflicts row (acc.1 ++ acc.2)).
      + destruct (IH acc) as (new & -> & Hsub). exists new.
        split; [done|]. by apply sublist_cons.
      + destruct (IH (acc.1, acc.2 ++ [row])) as (new & -> & Hsub).
        exists (row :: new). cbn [snd]. rewrite <-app_assoc.
        split; [done|]. by apply sublist_skip. }
  destruct (H (table, [])) as (new & -> & Hsub). done.
Qed.

(** C9: the statement adds at most min(500, orders x products) rows; each
    row added has a confidence score in [0.5, 1.0) and an expected revenue
    of 1.2 times the price of the product it names. *)
Theorem recommendations_bounded conflicts random table orders products :
  (∀ n, 0 <= random n ∧ random n < 1)%Q →
  let rows := generate conflicts random table orders products in
  LIMIT = 500%nat ∧
  (length rows ≤ LIMIT `min` (length orders * length products))%nat ∧
  ∀ row, row ∈ rows →
    ((1 # 2) <= confidence_score row ∧ confidence_score row < 1)%Q ∧
    ∃ o p, o ∈ orders ∧ p ∈ products ∧
           order_id row = order_key o ∧
           Recommend.store_id row = order_store o ∧
           Recommend.product_id row = product_key p ∧
           expected_revenue row = (product_price p * (6 # 5))%Q ∧
           Qeq (6 # 5) 1.2.
Proof.
  intros Hrandom rows. split; [done|].
  pose proof (insert_sublist conflicts table
                (select random 0 LIMIT (cross_join orders products))) as Hsub.
  fold (generate conflicts random table orders products) in Hsub. fold rows in Hsub.
  split.
  - apply sublist_length in Hsub.
    pose proof (select_length random 0 LIMIT (cross_join orders products)) as Hlen.
    rewrite cross_join_length in Hlen. lia.
  - intros row Hrow. eapply elem_of_sublist in Hrow; [|exact Hsub].
    apply select_elem in Hrow as (o & p & k & Hin & ->).
    apply cross_join_elem in Hin as [Ho Hp].
    destruct (Hrandom k) as [H0 H1]. split.
    + cbn [confidence_score select_row]. split; lra.
    + exists o, p. repeat split; done.
Qed.

Lemma recommendations_bounded_witness :
  (∀ n, 0 <= Sample.low_draws n ∧ Sample.low_draws n < 1)%Q ∧
  (length (generate Sample.no_conflict Sample.low_draws []
             Sample.orders Sample.catalogue) ≤ 4)%nat.
Proof.
  assert (∀ n, 0 <= Sample.low_draws n ∧ Sample.low_draws n < 1)%Q as Hdraws.
  { intros n. unfold Sample.low_draws. split; lra. }
  split; [done|].
  destruct (recommendations_bounded Sample.no_conflict Sample.low_draws []
              Sample.orders Sample.catalogue Hdraws) as (_ & Hlen & _).
  etransitivity; [exact Hlen|]. vm_compute. lia.
Defined.

(** With every pair kept, the four rows of the sample, scores and revenues
    in lowest terms. *)
Example recommendations_sample :
  (λ row, (order_id row, Recommend.product_id row, recommendation_type row,
           Qred (confidence_score row), Qred (expected_revenue row))) <$>
    generate Sample.no_conflict Sample.low_draws [] Sample.orders Sample.catalogue =
  [ (1, 850338995742140055, lit "cross_sell", 1 # 2, 12%Q);
    (1, 624518273476107074, lit "upsell", 1 # 2, 72%Q);
    (2, 850338995742140055, lit "cross_sell", 1 # 2, 12%Q);
    (2, 624518273476107074, lit "upsell", 1 # 2, 72%Q) ].
Proof. reflexivity. Qed.

End Recommendations.

(** * Further properties of the two scripts *)

(** ** Stripping *)

Lemma lstrip_nil s :
  Str.lstrip s = [] ↔ Forall (λ c, Str.isspace c = true) s.
Proof.
  induction s as [|c s IH]; simpl; [by split; [constructor|]|].
  destruct (Str.isspace c) eqn:Hc.
  - rewrite IH, Forall_cons. naive_solver.
  - rewrite Forall_cons. split; [done|]. intros [? _]. congruence.
Qed.

Lemma lstrip_id s :
  (∀ c t, s = c :: t → Str.isspace c = false) → Str.lstrip s = s.
Proof.
  destruct s as [|c s]; [done|]. intros H. simpl. by rewrite (H c s).
Qed.

Lemma strip_nil s :
  Str.strip s = [] ↔ Forall (λ c, Str.isspace c = true) s.
Proof.
  unfold Str.strip, Str.rstrip. rewrite <-lstrip_nil. split.
  - intros H. apply (f_equal reverse) in H. rewrite reverse_involutive in H.
    cbn in H. apply lstrip_nil in H. rewrite Forall_reverse in H.
    destruct (Str.lstrip s) as [|c t] eqn:Hs; [done|].
    apply lstrip_nonspace in Hs. apply Forall_cons in H as [? _]. congruence.
  - by intros ->.
Qed.

Lemma strip_last s c t : Str.strip s = t ++ [c] → Str.isspace c = false.
Proof.
  unfold Str.strip, Str.rstrip. intros H.
  apply (f_equal reverse) in H.
  rewrite reverse_involutive, reverse_app in H. cbn in H.
  by apply lstrip_nonspace in H.
Qed.

Lemma strip_trimmed s : Str.strip s ≠ [] → trimmed (Str.strip s).
Proof.
  intros Hne. split; [done|]. split.
  - intros c t H. by apply (strip_head s c t).
  - intros c t H. by apply (strip_last s c t).
Qed.

Lemma trimmed_strip n : trimmed n → Str.strip n = n.
Proof.
  intros (Hne & Hhead & Hlast). unfold Str.strip, Str.rstrip.
  rewrite (lstrip_id n) by done. rewrite lstrip_id, reverse_involutive; [done|].
  intros c t H. apply (Hlast c (reverse t)).
  apply (f_equal reverse) in H. rewrite reverse_involutive in H.
  by rewrite H, reverse_cons.
Qed.

Lemma strip_blank_or_trimmed (s : str) :
  (Str.strip s = [] ↔ Forall (λ c, Str.isspace c = true) s) ∧
  (Str.strip s ≠ [] → trimmed (Str.strip s)) ∧
  Str.strip (Str.strip s) = Str.strip s.
Proof.
  split; [apply strip_nil|]. split; [apply strip_trimmed|].
  destruct (decide (Str.strip s = [])) as [->|Hne]; [done|].
  by apply trimmed_strip, strip_trimmed.
Qed.

(** ** Names kept by the two scripts *)

Lemma names_elem key f n :
  n ∈ names key f ↔
  ∃ s, s ∈ column key f ∧ ¬ Forall (λ c, Str.isspace c = true) s ∧ n = Str.strip s.
Proof.
  unfold names. rewrite list_elem_of_filter, list_elem_of_fmap. split.
  - intros (Hne & s & -> & Hs). exists s. by rewrite <-strip_nil.
  - intros (s & Hs & Hb & ->). rewrite <-strip_nil in Hb. eauto.
Qed.

Lemma names_trimmed key f : Forall trimmed (names key f).
Proof.
  apply Forall_forall. intros n (s & _ & Hb & ->)%names_elem.
  apply strip_trimmed. by rewrite strip_nil.
Qed.

(** X1: the customer names for which store rows are emitted are exactly the
    stripped forms of the Customer Name values that are not all whitespace;
    each is non-empty and neither begins nor ends with whitespace, and none
    is emitted twice. *)
Theorem store_names_trimmed f stores :
  Stores.create_stores f = Ok stores →
  ∃ ns, Forall2 emitted_for ns stores ∧
        Forall trimmed ns ∧
        NoDup ns ∧
        ∀ n, n ∈ ns ↔
             ∃ s, s ∈ column (lit "Customer Name") f ∧
                  ¬ Forall (λ c, Str.isspace c = true) s ∧ n = Str.strip s.
Proof.
  intros [_ Hall]%create_stores_inv. eexists. split; [exact Hall|].
  split; [|split; [apply sorted_nodup|]].
  - apply Forall_forall. intros n Hn.
    apply sorted_elem, elem_of_list_to_set in Hn.
    by apply (proj1 (Forall_forall _ _) (names_trimmed (lit "Customer Name") f)).
  - intros n. by rewrite sorted_elem, elem_of_list_to_set, names_elem.
Qed.

Lemma store_names_trimmed_witness :
  ∃ stores, Stores.create_stores Sample.invoices = Ok stores ∧
  ∃ ns, Forall2 emitted_for ns stores ∧ Forall trimmed ns.
Proof.
  eexists. split; [vm_compute; reflexivity|].
  edestruct (store_names_trimmed Sample.invoices) as (ns & H1 & H2 & _);
    [vm_compute; reflexivity|].
  exists ns. split; [exact H1|exact H2].
Defined.

Lemma product_id_range n h : product_id n = Ok h → 0 ≤ h < 10 ^ 18.
Proof.
  unfold product_id. destruct (Str.encode n); [|done].
  intros [= <-]. apply Z.mod_pos_bound. lia.
Qed.

Lemma category_of_cases n :
  category_of n = lit "Food" ∨ category_of n = lit "Grocery".
Proof. unfold category_of. destruct (existsb _ _); auto. Qed.

(** X2: every entry of the product dictionary is keyed by a trimmed name,
    carries that name, an identifier in [0, 10^18) and the category "Food"
    or "Grocery"; no name has two entries. *)
Theorem product_entries_well_formed f products items :
  read_csv f = Ok (products, items) →
  NoDup (Dict.keys products) ∧
  Forall (λ e, trimmed e.1 ∧ name e.2 = e.1 ∧ 0 ≤ id e.2 < 10 ^ 18 ∧
               (category e.2 = lit "Food" ∨ category e.2 = lit "Grocery"))
         products.
Proof.
  intros (_ & Hkeys & Hfirst)%read_csv_inv.
  assert (NoDup (Dict.keys products)) as Hnd.
  { rewrite Hkeys. apply first_occurrences_nodup. }
  split; [done|]. apply Forall_forall. intros [n p] Hin.
  assert (n ∈ names (lit "Item Name") f) as Hn.
  { apply elem_of_first_occurrences. rewrite <-Hkeys.
    apply list_elem_of_fmap. by exists (n, p). }
  destruct (Hfirst n p (dict_get_elem _ _ _ Hnd Hin))
    as (r & _ & Hid & Hname & _ & Hcat & _).
  cbn [fst snd]. split.
  { by apply (proj1 (Forall_forall _ _) (names_trimmed (lit "Item Name") f)). }
  split; [done|]. split; [by apply (product_id_range n)|].
  rewrite Hcat. apply category_of_cases.
Qed.

Lemma product_entries_well_formed_witness :
  ∃ products items,
    read_csv Sample.invoices = Ok (products, items) ∧
    NoDup (Dict.keys products) ∧ length products = 2%nat.
Proof.
  eexists _, _. split; [vm_compute; reflexivity|].
  edestruct (product_entries_well_formed Sample.invoices) as [Hnd _];
    [vm_compute; reflexivity|].
  split; [exact Hnd|reflexivity].
Defined.

(** ** A file without the column *)

Lemma dict_get_fold_none {X V} (kf : X → str) (vf : X → V) key l (d : dict V) :
  Forall (λ x, kf x ≠ key) l → Dict.get key d = None →
  Dict.get key (foldl (λ d x, Dict.set (kf x) (vf x) d) d l) = None.
Proof.
  intros Hl. revert d. induction Hl as [|x l Hx _ IH]; intros d Hd; cbn [foldl]; [done|].
  apply IH. by rewrite dict_get_set_ne.
Qed.

Lemma dict_row_absent key header record :
  key ∉ header → Dict.get key (dict_row header record) = None.
Proof.
  intros Hkey. unfold dict_row.
  apply (dict_get_fold_none (λ k, k) (λ _, PyNone)).
  { apply Forall_forall. intros k Hk ->.
    apply Hkey. eapply elem_of_sublist; [exact Hk|apply sublist_drop]. }
  apply (dict_get_fold_none (λ kv, kv.1) (λ kv, PyStr kv.2)); [|done].
  apply Forall_forall. intros [k v] Hin%elem_of_zip_l Heq.
  simpl in Heq. by subst.
Qed.

Lemma field_absent key f r :
  key ∉ fieldnames f → r ∈ DictReader f → field key r = Some [].
Proof.
  intros Hkey (record & -> & _)%list_elem_of_fmap.
  unfold field, get. by rewrite dict_row_absent.
Qed.

Lemma names_absent key f : key ∉ fieldnames f → names key f = [].
Proof.
  intros Hkey. unfold names. apply filter_none, Forall_forall.
  intros n (s & -> & Hs)%list_elem_of_fmap.
  apply list_elem_of_omap in Hs as (r & Hr & Hs).
  rewrite (field_absent _ _ _ Hkey Hr) in Hs. injection Hs as <-. by intros [].
Qed.

Lemma complete_absent key f : key ∉ fieldnames f → complete key f.
Proof.
  intros Hkey. apply Forall_forall. intros r Hr.
  rewrite (field_absent _ _ _ Hkey Hr). eauto.
Qed.

Lemma read_row_blank t r s :
  field (lit "Item Name") r = Some s → Str.strip s = [] → read_row t r = Ok t.
Proof.
  intros Hr Hs. destruct t as [products items]. unfold read_row, field in *.
  destruct (get r (lit "Item Name") []) as [|s0]; [done|]. injection Hr as ->.
  cbn [val_strip mbind result_bind]. rewrite Hs, add_product_eq.
  cbn [Str.nonempty andb mbind result_bind]. unfold add_item.
  destruct (get r (lit "Invoice ID") []) as [|inv]; [done|].
  by rewrite andb_false_r.
Qed.

(** X3: on a file whose header has no Customer Name column the store script
    completes and emits no row, whatever the records hold; on a file whose
    header has no Item Name column the populator completes with no product
    and no invoice item. *)
Theorem missing_column_gives_nothing f :
  (lit "Customer Name" ∉ fieldnames f → Stores.create_stores f = Ok []) ∧
  (lit "Item Name" ∉ fieldnames f → read_csv f = Ok ([], [])).
Proof.
  split; intros Hkey.
  - unfold Stores.create_stores.
    rewrite read_customers_spec by by apply complete_absent.
    by rewrite names_absent.
  - unfold read_csv.
    assert (∀ rows, Forall (λ r, field (lit "Item Name") r = Some []) rows →
                    for_each read_row ([], []) rows = Ok ([], [])) as H.
    { induction 1 as [|r rows Hr _ IH]; [done|]. cbn [for_each].
      by rewrite (read_row_blank _ r [] Hr). }
    apply H, Forall_forall. intros r Hr. by apply (field_absent _ f).
Qed.

Lemma missing_column_gives_nothing_witness :
  Stores.create_stores Sample.blank_items = Ok [] ∧
  read_csv (Csv [lit "Customer Name"] [[lit "Acme"]]) = Ok ([], []).
Proof.
  split.
  - apply (proj1 (missing_column_gives_nothing Sample.blank_items)).
    apply (bool_decide_unpack _). vm_compute. reflexivity.
  - apply (proj2 (missing_column_gives_nothing (Csv [lit "Customer Name"] [[lit "Acme"]]))).
    apply (bool_decide_unpack _). vm_compute. reflexivity.
Defined.

(** ** How the scripts stop *)

Lemma stores_read_rows_raise customers rows e :
  for_each Stores.read_row customers rows = Raise e → e = AttributeError.
Proof.
  revert customers. induction rows as [|r rows IH]; intros customers; cbn [for_each].
  - done.
  - rewrite stores_read_row. destruct (field _ r); cbn [mbind result_bind].
    + apply IH.
    + congruence.
Qed.

Lemma read_rows_raise t rows :
  Forall (λ r, ∀ s, field (lit "Item Name") r = Some s → Str.decoded s = true) rows →
  (∃ t', for_each read_row t rows = Ok t') ∨
  for_each read_row t rows = Raise AttributeError.
Proof.
  intros Hall. revert t.
  induction Hall as [|r rows Hr _ IH]; intros t; cbn [for_each]; [eauto|].
  destruct (field (lit "Item Name") r) as [s|] eqn:Hs.
  - destruct (read_row_ok t r s Hs (Hr s eq_refl)) as [t' ->]. apply IH.
  - right. destruct t as [products items]. unfold read_row, field in *.
    by destruct (get r (lit "Item Name") []).
Qed.

(** X4: on a decoded file each script either completes or raises
    [AttributeError], and it raises exactly when some record ends before the
    column the script reads; no other exception leaves either reading
    loop. *)
Theorem abort_only_on_short_record f :
  decoded_csv f →
  ((complete (lit "Customer Name") f ∧ ∃ stores, Stores.create_stores f = Ok stores) ∨
   (¬ complete (lit "Customer Name") f ∧
    Stores.create_stores f = Raise AttributeError)) ∧
  ((complete (lit "Item Name") f ∧ ∃ t, read_csv f = Ok t) ∨
   (¬ complete (lit "Item Name") f ∧ read_csv f = Raise AttributeError)).
Proof.
  intros Hd. split.
  - destruct (decide (complete (lit "Customer Name") f)) as [Hc|Hc].
    { left. eauto using create_stores_ok. }
    right. split; [done|]. unfold Stores.create_stores.
    destruct (Stores.read_customers f) as [customers|e] eqn:Hread.
    + destruct Hc. eapply stores_read_rows_complete, Hread.
    + apply stores_read_rows_raise in Hread as ->. done.
  - destruct (decide (complete (lit "Item Name") f)) as [Hc|Hc].
    { left. split; [done|]. destruct (read_csv_ok f Hd Hc) as (ps & its & ?). eauto. }
    right. split; [done|].
    destruct (read_rows_raise ([], []) (DictReader f)) as [[[ps its] Hok]|Hraise].
    + apply Forall_forall. intros r Hr s Hs. by eapply field_decoded.
    + destruct Hc. by apply (read_csv_inv f ps its).
    + done.
Qed.

Lemma abort_only_on_short_record_witness :
  decoded_csv Sample.short_customer ∧
  ¬ complete (lit "Customer Name") Sample.short_customer ∧
  Stores.create_stores Sample.short_customer = Raise AttributeError ∧
  ∃ t, read_csv Sample.short_customer = Ok t.
Proof.
  assert (decoded_csv Sample.short_customer) as Hd
    by (apply (bool_decide_unpack _); vm_compute; reflexivity).
  assert (¬ complete (lit "Customer Name") Sample.short_customer) as Hn
    by (apply (bool_decide_eq_false_1 _); vm_compute; reflexivity).
  assert (complete (lit "Item Name") Sample.short_customer) as Hc
    by (apply (bool_decide_unpack _); vm_compute; reflexivity).
  destruct (abort_only_on_short_record Sample.short_customer Hd)
    as [[[? _]|[_ Hs]] [[_ Hp]|[? _]]]; done.
Defined.

(** ** The stores depend on the set of names only *)

(** X5: two files whose records all reach the Customer Name column and
    which hold the same non-blank stripped customer names, in any order and
    with any repetitions, give the same output. *)
Theorem stores_depend_on_name_set f1 f2 :
  complete (lit "Customer Name") f1 →
  complete (lit "Customer Name") f2 →
  (∀ n, n ∈ names (lit "Customer Name") f1 ↔ n ∈ names (lit "Customer Name") f2) →
  Stores.create_stores f1 = Stores.create_stores f2.
Proof.
  intros H1 H2 Hsame. unfold Stores.create_stores.
  rewrite !read_customers_spec by done. cbn [mbind result_bind].
  replace (list_to_set (names (lit "Customer Name") f1) : gset str)
    with (list_to_set (names (lit "Customer Name") f2) : gset str); [done|].
  apply set_eq. intros n. by rewrite !elem_of_list_to_set.
Qed.

Lemma stores_depend_on_name_set_witness :
  complete (lit "Customer Name") Sample.invoices ∧
  complete (lit "Customer Name") Sample.customers_reordered ∧
  Stores.create_stores Sample.invoices =
  Stores.create_stores Sample.customers_reordered.
Proof.
  assert (complete (lit "Customer Name") Sample.invoices) as H1
    by (apply (bool_decide_unpack _); vm_compute; reflexivity).
  assert (complete (lit "Customer Name") Sample.customers_reordered) as H2
    by (apply (bool_decide_unpack _); vm_compute; reflexivity).
  split; [done|]. split; [done|].
  apply (stores_depend_on_name_set _ _ H1 H2). intros n.
  assert (names (lit "Customer Name") Sample.invoices =
          [lit "Zed Foods"; lit "Acme SF"; lit "Acme SF"]) as ->
    by (vm_compute; reflexivity).
  assert (names (lit "Customer Name") Sample.customers_reordered =
          [lit "Acme SF"; lit "Zed Foods"; lit "Acme SF"]) as ->
    by (vm_compute; reflexivity).
  rewrite !elem_of_cons, !elem_of_nil. tauto.
Defined.

(** ** The invoice items *)

Lemma read_row_inv_full ps0 is0 r ps1 is1 :
  read_row (ps0, is0) r = Ok (ps1, is1) →
  ∃ s, field (lit "Item Name") r = Some s ∧
       add_product ps0 r (Str.strip s) = Ok ps1 ∧
       add_item ps1 is0 r (Str.strip s) = Ok is1.
Proof.
  unfold read_row, field.
  destruct (get r (lit "Item Name") []) as [|s]; [done|].
  cbn [val_strip mbind result_bind].
  destruct (add_product ps0 r (Str.strip s)) as [ps|] eqn:Hadd; [|done].
  cbn [mbind result_bind].
  destruct (add_item ps is0 r (Str.strip s)) as [its|] eqn:Hitem; [|done].
  cbn [mbind result_bind]. intros [= <- <-]. eauto.
Qed.

Lemma add_item_inv ps its r s its' :
  field (lit "Item Name") r = Some s →
  add_item ps its r (Str.strip s) = Ok its' →
  match collected r with
  | Some (inv, n) =>
      ∃ p, Dict.get n ps = Some p ∧
           its' = its ++ [InvoiceItem inv n (parse_amounts r).1 (price p)
                            (parse_amounts r).2]
  | None => its' = its
  end.
Proof.
  intros Hs. unfold add_item, collected. rewrite Hs.
  destruct (get r (lit "Invoice ID") []) as [|inv]; [by intros [= <-]|].
  destruct (Str.nonempty inv && Str.nonempty (Str.strip s)); [|by intros [= <-]].
  destruct (parse_amounts r) as [q t].
  destruct (Dict.get (Str.strip s) ps) as [p|]; [|done].
  intros [= <-]. eauto.
Qed.

Lemma add_product_keeps ps0 r n ps1 k v :
  add_product ps0 r n = Ok ps1 → Dict.get k ps0 = Some v → Dict.get k ps1 = Some v.
Proof.
  intros [(_ & _ & p & _ & ->)|[_ ->]]%add_product_inv Hk; [|done].
  by rewrite dict_get_app, Hk.
Qed.

Lemma read_rows_items rows products items :
  for_each read_row ([], []) rows = Ok (products, items) →
  Forall2 (recorded products) (filter (λ r, is_Some (collected r)) rows) items.
Proof.
  revert products items.
  induction rows as [|r rows IH] using rev_ind; intros products items.
  { intros [= <- <-]. constructor. }
  rewrite for_each_app.
  destruct (for_each read_row ([], []) rows) as [[ps0 is0]|] eqn:Hrows; [|done].
  cbn [mbind result_bind for_each].
  destruct (read_row (ps0, is0) r) as [[ps1 is1]|] eqn:Hrow; [|done].
  cbn [mbind result_bind]. intros [= -> ->].
  apply read_row_inv_full in Hrow as (s & Hs & Hadd & Hitem).
  specialize (IH _ _ eq_refl).
  assert (Forall2 (recorded products)
            (filter (λ r, is_Some (collected r)) rows) is0) as Hold.
  { eapply Forall2_impl; [exact IH|]. intros r' i (? & ? & p & Hp & ?).
    repeat split; try done. exists p. eauto using add_product_keeps. }
  rewrite filter_app, filter_cons, filter_nil.
  apply (add_item_inv _ _ _ _ _ Hs) in Hitem.
  destruct (collected r) as [[inv n]|] eqn:Hc.
  - destruct Hitem as (p & Hp & ->). rewrite decide_True by eauto.
    apply Forall2_app; [done|]. constructor; [|constructor].
    split; [done|]. split; [by destruct (parse_amounts r)|]. eauto.
  - subst. rewrite decide_False by (by intros [? ?]). by rewrite app_nil_r.
Qed.

(** X6: the invoice items are, in file order, one for each row that has a
    non-empty Invoice ID and a non-blank Item Name, and no other; each
    carries the row's invoice identifier unstripped, the stripped item name,
    the row's amounts, and as unit price the price of the product of that
    name, which is the price of the first row of that name and not the
    row's own. *)
Theorem invoice_items_recorded f products items :
  read_csv f = Ok (products, items) →
  Forall2 (recorded products)
    (filter (λ r, is_Some (collected r)) (DictReader f)) items ∧
  Forall (λ i, invoice_id i ≠ [] ∧ product_name i ≠ [] ∧
               Dict.mem (product_name i) products = true) items ∧
  (length items ≤ length (DictReader f))%nat.
Proof.
  intros Hread. pose proof (read_rows_items _ _ _ Hread) as Hall.
  split; [done|]. split.
  - apply Forall_forall. intros i Hi.
    apply list_elem_of_lookup in Hi as [k Hk].
    destruct (Forall2_lookup_r _ _ _ _ _ Hall Hk) as (r & _ & Hc & _ & p & Hp & _).
    unfold collected in Hc. unfold Dict.mem. rewrite Hp.
    destruct (get r (lit "Invoice ID") []) as [|inv]; [done|].
    destruct (field (lit "Item Name") r) as [s|]; [|done].
    destruct inv as [|c inv]; [done|]. cbn [Str.nonempty andb] in Hc.
    destruct (Str.strip s) as [|c' n] eqn:Hn; [done|].
    injection Hc as <- <-. done.
  - apply Forall2_length in Hall. rewrite <-Hall. apply length_filter.
Qed.

Lemma invoice_items_recorded_witness :
  ∃ products items,
    read_csv Sample.invoices = Ok (products, items) ∧
    Forall2 (recorded products)
      (filter (λ r, is_Some (collected r)) (DictReader Sample.invoices)) items.
Proof.
  eexists _, _. split; [vm_compute; reflexivity|].
  eapply proj1, invoice_items_recorded. vm_compute. reflexivity.
Defined.

(** On the sample, the last line offers the item at 12.00 and is recorded
    at the 10.00 of the line before it. *)
Example invoice_items_sample :
  (λ i, (invoice_id i, product_name i, quantity i, unit_price i, total i)) <$>
    (try_except (read_csv Sample.invoices) ([], [])).2 =
  [ (lit "INV-2", lit "Salt", PFloat (Fin 3), Fin 0, PFloat (Fin (2001 # 2)));
    (lit "INV-1", lit "Basmati Rice", PFloat (Fin 2), Fin 10, PFloat (Fin 20));
    (lit "INV-1", lit "Basmati Rice", PInt 1, Fin 10, PInt 0) ].
Proof. vm_compute. reflexivity. Qed.

(** ** The brand *)

Lemma split_from_token cur s x xs :
  cur ≠ [] → Str.split_from cur s = x :: xs →
  ∃ tok rest,
    x = reverse cur ++ tok ∧ s = tok ++ rest ∧
    Forall (λ c, Str.isspace c = false) tok ∧
    (rest = [] ∨ ∃ c r, rest = c :: r ∧ Str.isspace c = true).
Proof.
  revert cur. induction s as [|c s IH]; intros cur Hcur; cbn [Str.split_from].
  - destruct cur as [|c0 cur]; [done|]. intros [= <- _].
    exists [], []. rewrite app_nil_r. auto.
  - destruct (Str.isspace c) eqn:Hc.
    + destruct cur as [|c0 cur]; [done|]. intros [= <- _].
      exists [], (c :: s). rewrite app_nil_r. repeat split; eauto.
    + intros (tok & rest & -> & -> & Htok & Hrest)%IH; [|done].
      exists (c :: tok), rest. rewrite reverse_cons, <-app_assoc.
      repeat split; auto.
Qed.

Lemma split_first_token s x xs :
  Str.split s = x :: xs →
  ∃ pre rest,
    s = pre ++ x ++ rest ∧
    Forall (λ c, Str.isspace c = true) pre ∧
    x ≠ [] ∧ Forall (λ c, Str.isspace c = false) x ∧
    (rest = [] ∨ ∃ c r, rest = c :: r ∧ Str.isspace c = true).
Proof.
  unfold Str.split. induction s as [|c s IH]; cbn [Str.split_from]; [done|].
  destruct (Str.isspace c) eqn:Hc.
  - intros (pre & rest & -> & Hpre & ?)%IH.
    exists (c :: pre), rest. split; [done|]. split; [by constructor|done].
  - intros (tok & rest & -> & -> & Htok & Hrest)%split_from_token; [|done].
    exists [], rest. change (reverse [c] ++ tok) with (c :: tok).
    split; [done|]. split; [constructor|]. split; [done|].
    split; [by constructor|done].
Qed.

Lemma contains_point c s : Str.contains [c] s = true ↔ c ∈ s.
Proof.
  rewrite contains_spec. unfold Str.substring. split.
  - intros (pre & post & ->). apply elem_of_app. right. apply elem_of_cons. auto.
  - intros (pre & post & ->)%list_elem_of_split. eauto.
Qed.

(** X7: for a trimmed item name the brand is "Generic" when the name has no
    U+0020, whatever other whitespace it has; otherwise it is the non-empty
    run of non-whitespace with which the name begins, ending at the first
    whitespace of any kind.  No [IndexError] arises. *)
Theorem brand_is_first_token n :
  trimmed n →
  ∃ b, brand_of n = Ok b ∧
       (((0x20%N ∉ n) ∧ b = lit "Generic") ∨
        ((0x20%N ∈ n) ∧ b ≠ [] ∧ Forall (λ c, Str.isspace c = false) b ∧
         ∃ c r, n = b ++ c :: r ∧ Str.isspace c = true)).
Proof.
  intros Hn. pose proof Hn as (Hne & Hhead & _).
  destruct (brand_of_stripped n) as [b Hb]. rewrite trimmed_strip in Hb by done.
  exists b. split; [done|]. unfold brand_of in Hb.
  change (lit " ") with [0x20%N] in Hb.
  destruct (Str.contains [0x20%N] n) eqn:Hsp.
  - right. apply contains_point in Hsp. split; [done|].
    destruct (Str.split n) as [|x xs] eqn:Hsplit; [done|]. injection Hb as ->.
    apply split_first_token in Hsplit as (pre & rest & Heq & Hpre & Hb & Htok & Hrest).
    destruct pre as [|c0 pre].
    + split; [done|]. split; [done|]. destruct Hrest as [->|(c & r & -> & Hc)]; [|eauto].
      rewrite app_nil_r in Heq. cbn in Heq. subst n.
      apply (proj1 (Forall_forall _ _) Htok) in Hsp. done.
    + apply Forall_cons in Hpre as [Hc0 _]. rewrite (Hhead c0 _ Heq) in Hc0. done.
  - left. split; [|congruence]. rewrite <-contains_point. congruence.
Qed.

Lemma brand_is_first_token_witness :
  trimmed (lit "Basmati Rice") ∧ brand_of (lit "Basmati Rice") = Ok (lit "Basmati").
Proof.
  assert (trimmed (lit "Basmati Rice")) as Ht.
  { change (lit "Basmati Rice") with (Str.strip (lit "Basmati Rice")).
    by apply strip_trimmed. }
  split; [done|].
  destruct (brand_is_first_token _ Ht) as (b & Hb & _).
  rewrite Hb. vm_compute in Hb. injection Hb as <-. reflexivity.
Defined.

(** A name whose only whitespace is a tab has no U+0020 and gets the brand
    "Generic", while [split] alone would cut it at the tab. *)
Example brand_of_tabbed :
  brand_of (lit "Basmati" ++ [0x09%N] ++ lit "Rice") = Ok (lit "Generic") ∧
  Str.split (lit "Basmati" ++ [0x09%N] ++ lit "Rice") = [lit "Basmati"; lit "Rice"].
Proof. split; reflexivity. Qed.

(** ** The order map *)

Lemma order_map_of_snoc {A} (fetched : list (A * str)) r :
  order_map_of (fetched ++ [r]) = Dict.set r.2 r.1 (order_map_of fetched).
Proof. unfold order_map_of. by rewrite foldl_app. Qed.

Lemma dict_set_keys {V} k (v : V) d :
  Dict.keys (Dict.set k v d) =
  if decide (k ∈ Dict.keys d) then Dict.keys d else Dict.keys d ++ [k].
Proof.
  unfold Dict.keys. induction d as [|[k' v'] d IH]; cbn [Dict.set fmap list_fmap].
  - destruct (decide (k ∈ [])) as [Hin|_]; [|done]. by apply elem_of_nil in Hin.
  - destruct (decide (k' = k)) as [->|Hne]; cbn [fmap list_fmap fst].
    + rewrite decide_True; [done|]. apply elem_of_cons. auto.
    + rewrite IH. destruct (decide (k ∈ fst <$> d)) as [Hin|Hin].
      * rewrite decide_True; [done|]. apply elem_of_cons. auto.
      * rewrite decide_False; [done|]. rewrite elem_of_cons. naive_solver.
Qed.

(** X8: in the order map built from the fetched (id, order_number) pairs,
    an order number looked up gives the id of the last pair that has it,
    while the numbers are iterated in the order of their first occurrence;
    a number fetched twice thus keeps its first place with its last id. *)
Theorem order_map_last_id_first_place {A} (fetched : list (A * str)) :
  Dict.keys (order_map_of fetched) = first_occurrences (snd <$> fetched) ∧
  ∀ num, Dict.get num (order_map_of fetched) =
         fst <$> last (filter (λ r, r.2 = num) fetched).
Proof.
  induction fetched as [|[oid n] fetched [IHk IHg]] using rev_ind; [done|].
  rewrite order_map_of_snoc. cbn [fst snd]. split.
  - rewrite dict_set_keys, fmap_app. change (snd <$> [(oid, n)]) with [n].
    rewrite first_occurrences_snoc, IHk.
    destruct (decide (n ∈ first_occurrences (snd <$> fetched))) as [Hin|Hin].
    + by rewrite decide_True by by apply elem_of_first_occurrences.
    + by rewrite decide_False by by rewrite <-elem_of_first_occurrences.
  - intros num. rewrite filter_app, filter_cons, filter_nil. cbn [snd].
    destruct (decide (n = num)) as [->|Hne].
    + by rewrite dict_get_set_eq, last_snoc.
    + by rewrite dict_get_set_ne, app_nil_r, IHg.
Qed.

(** An order number fetched twice. *)
Example order_map_sample :
  order_map_of [(1, lit "INV-100"); (2, lit "INV-200"); (3, lit "INV-100")] =
  [(lit "INV-100", 3); (lit "INV-200", 2)].
Proof. reflexivity. Qed.

(** ** The matcher on numbers of one length *)

Lemma contains_same_length a b :
  length a = length b → Str.contains a b = true → a = b.
Proof.
  intros Hlen (pre & post & ->)%contains_spec.
  rewrite !length_app in Hlen.
  destruct pre; [|simpl in Hlen; lia]. destruct post; [|simpl in Hlen; lia].
  by rewrite app_nil_r.
Qed.

Lemma contains_refl a : Str.contains a a = true.
Proof. apply contains_spec. exists [], []. by rewrite app_nil_r. Qed.

(** X9: an invoice identifier that is itself an order number always finds
    an order; and when every order number has the length of the invoice
    identifier the matcher is an exact lookup, containment between texts of
    one length being equality. *)
Theorem matcher_exact_on_equal_lengths {A} (invoice_id : str) (order_map : dict A) :
  (is_Some (Dict.get invoice_id order_map) →
   is_Some (find_order invoice_id order_map)) ∧
  (Forall (λ e, length e.1 = length invoice_id) order_map →
   find_order invoice_id order_map = Dict.get invoice_id order_map).
Proof.
  split.
  - induction order_map as [|[num oid] rest IH]; cbn [Dict.get find_order]; [done|].
    destruct (decide (num = invoice_id)) as [->|Hne].
    + unfold order_matches. rewrite contains_refl. eauto.
    + destruct (order_matches invoice_id num); eauto.
  - induction 1 as [|[num oid] rest Hlen _ IH]; cbn [Dict.get find_order]; [done|].
    cbn [fst] in Hlen. rewrite IH. unfold order_matches.
    destruct (decide (num = invoice_id)) as [->|Hne].
    + by rewrite contains_refl.
    + destruct (Str.contains invoice_id num) eqn:H1.
      { apply contains_same_length in H1; [|done]. by destruct Hne. }
      destruct (Str.contains num invoice_id) eqn:H2; [|done].
      apply contains_same_length in H2; [|done]. by destruct Hne.
Qed.

Lemma matcher_exact_on_equal_lengths_witness :
  Forall (λ e : str * Z, length e.1 = length (lit "INV-200"))
    [(lit "INV-100", 1); (lit "INV-200", 2)] ∧
  find_order (lit "INV-200") [(lit "INV-100", 1); (lit "INV-200", 2)] = Some 2.
Proof.
  assert (Forall (λ e : str * Z, length e.1 = length (lit "INV-200"))
            [(lit "INV-100", 1); (lit "INV-200", 2)]) as Hlen
    by (repeat constructor).
  split; [done|].
  rewrite (proj2 (matcher_exact_on_equal_lengths (lit "INV-200") _) Hlen).
  reflexivity.
Defined.

(** ** Quoting for SQL *)

Lemma quote_cons c s :
  Str.replace (lit "'") (lit "''") (c :: s) =
  (if decide (c = 0x27%N) then [0x27; 0x27]%N else [c]) ++
  Str.replace (lit "'") (lit "''") s.
Proof.
  unfold Str.replace. change (lit "'") with [0x27%N]. change (lit "''") with [0x27; 0x27]%N.
  cbn [Str.replace_from Str.startswith length Nat.sub].
  destruct (N.eqb_spec 0x27 c) as [<-|Hne].
  - by rewrite decide_True.
  - by rewrite decide_False by congruence.
Qed.

Lemma unquote_quote s :
  Str.replace (lit "''") (lit "'") (Str.replace (lit "'") (lit "''") s) = s.
Proof.
  induction s as [|c s IH]; [done|]. rewrite quote_cons.
  destruct (decide (c = 0x27%N)) as [->|Hne].
  - unfold Str.replace in *. change (lit "'") with [0x27%N] in *.
    change (lit "''") with [0x27; 0x27]%N in *.
    cbn [app Str.replace_from Str.startswith length Nat.sub N.eqb Pos.eqb].
    by rewrite IH.
  - unfold Str.replace in *. change (lit "'") with [0x27%N] in *.
    change (lit "''") with [0x27; 0x27]%N in *.
    cbn [app Str.replace_from Str.startswith].
    destruct (N.eqb_spec 0x27 c) as [<-|_]; [done|]. by rewrite IH.
Qed.

(** X10: the name printed into the SQL text is the customer name with each
    quote doubled: reading doubled quotes back as single ones returns the
    name, so two different names are never printed alike. *)
Theorem sql_name_round_trip :
  (∀ name, Str.replace (lit "''") (lit "'")
             (Str.replace (lit "'") (lit "''") name) = name) ∧
  (∀ a b, Str.replace (lit "'") (lit "''") a = Str.replace (lit "'") (lit "''") b →
          a = b) ∧
  (∀ name st1 st2 other,
     emitted_for name st1 → emitted_for other st2 →
     Stores.sql_name st1 = Stores.sql_name st2 → name = other).
Proof.
  split; [apply unquote_quote|].
  assert (∀ a b, Str.replace (lit "'") (lit "''") a =
                 Str.replace (lit "'") (lit "''") b → a = b) as Hinj.
  { intros a b H. apply (f_equal (Str.replace (lit "''") (lit "'"))) in H.
    by rewrite !unquote_quote in H. }
  split; [done|].
  intros name st1 st2 other (_ & H1 & _) (_ & H2 & _) Heq.
  apply Hinj. by rewrite <-H1, <-H2.
Qed.

(** ** City and state *)

(** X11: the city and state printed for a store are one of four pairs, the
    state being that of the city; a name containing "SF" or "San" is placed
    in San Francisco whatever else it contains, "Portland" is looked for
    only after that and "Seattle" only after both, and any other name is
    placed in Sacramento. *)
Theorem city_state_consistent (name : str) :
  let city := Stores.city_of name in
  let state := Stores.state_of city in
  let sf := Str.substring (lit "SF") name ∨ Str.substring (lit "San") name in
  let portland := Str.substring (lit "Portland") name in
  let seattle := Str.substring (lit "Seattle") name in
  (city, state) ∈ [ (lit "San Francisco", lit "CA"); (lit "Portland", lit "OR");
                    (lit "Seattle", lit "WA"); (lit "Sacramento", lit "CA") ] ∧
  (city = lit "San Francisco" ↔ sf) ∧
  (city = lit "Portland" ↔ ¬ sf ∧ portland) ∧
  (city = lit "Seattle" ↔ ¬ sf ∧ ¬ portland ∧ seattle) ∧
  (city = lit "Sacramento" ↔ ¬ sf ∧ ¬ portland ∧ ¬ seattle).
Proof.
  cbv zeta. rewrite <-!contains_spec. unfold Stores.city_of.
  assert (Stores.state_of (lit "San Francisco") = lit "CA") as Hsf by reflexivity.
  assert (Stores.state_of (lit "Portland") = lit "OR") as Hpo by reflexivity.
  assert (Stores.state_of (lit "Seattle") = lit "WA") as Hse by reflexivity.
  assert (Stores.state_of (lit "Sacramento") = lit "CA") as Hsa by reflexivity.
  destruct (Str.contains (lit "SF") name);
    destruct (Str.contains (lit "San") name);
    destruct (Str.contains (lit "Portland") name);
    destruct (Str.contains (lit "Seattle") name);
    cbn [orb]; rewrite ?Hsf, ?Hpo, ?Hse, ?Hsa;
    (split; [rewrite !elem_of_cons; auto 6|]);
    repeat split; try done;
      try (let H := fresh in intros H; vm_compute in H; discriminate);
      naive_solver.
Qed.

(** A name with "San" in it and a later "Portland". *)
Example city_of_sandy :
  Stores.city_of (lit "Sandy's Portland Market") = lit "San Francisco".
Proof. reflexivity. Qed.

(** ** Identifiers as 64-bit integers *)

(** X12: both identifiers fit a signed 64-bit integer: a product identifier
    lies in [0, 2^63) and a store identifier in (0, 2^63). *)
Theorem ids_fit_signed_64_bits (name : str) :
  Str.decoded name = true →
  ∃ s p, store_id name = Ok s ∧ product_id name = Ok p ∧
         0 < s < 2 ^ 63 ∧ 0 ≤ p < 2 ^ 63.
Proof.
  intros (h & Hh & Hp & Hs)%ids_of_decoded.
  exists (h + STORE_OFFSET), h. split; [done|]. split; [done|].
  unfold STORE_OFFSET. lia.
Qed.

Lemma ids_fit_signed_64_bits_witness :
  Str.decoded (lit "Acme SF") = true ∧
  ∃ s p, store_id (lit "Acme SF") = Ok s ∧ product_id (lit "Acme SF") = Ok p ∧
         0 < s < 2 ^ 63 ∧ 0 ≤ p < 2 ^ 63.
Proof.
  split; [reflexivity|]. exact (ids_fit_signed_64_bits (lit "Acme SF") eq_refl).
Defined.

(** ** More on the recommendation statement *)

Section MoreRecommendations.

Import Recommend.

Lemma generate_row conflicts random table orders products row :
  row ∈ generate conflicts random table orders products →
  ∃ o p k, o ∈ orders ∧ p ∈ products ∧ row = select_row o p (random k).
Proof.
  intros Hrow. eapply elem_of_sublist in Hrow; [|apply insert_sublist].
  apply select_elem in Hrow as (o & p & k & Hin & ->).
  apply cross_join_elem in Hin as [Ho Hp]. eauto 6.
Qed.

(** X13: every row the statement adds is built from a product of the table
    and is an "upsell" exactly when that product's price exceeds 50, a
    "cross_sell" when it does not and the category is "Food", a "bundle"
    otherwise; a price of exactly 50 is no upsell.  Its reason and status
    are the two fixed texts. *)
Theorem recommendation_rows_classified conflicts random table orders products row :
  row ∈ generate conflicts random table orders products →
  ∃ p, p ∈ products ∧
       Recommend.product_id row = product_key p ∧
       (recommendation_type row = lit "upsell" ↔ (50 < product_price p)%Q) ∧
       (recommendation_type row = lit "cross_sell" ↔
          (product_price p <= 50)%Q ∧ product_category p = lit "Food") ∧
       (recommendation_type row = lit "bundle" ↔
          (product_price p <= 50)%Q ∧ product_category p ≠ lit "Food") ∧
       reason row = lit "Frequently bought together" ∧
       status row = lit "pending".
Proof.
  intros (o & p & k & _ & Hp & ->)%generate_row.
  exists p. split; [done|]. split; [done|].
  cbn [recommendation_type reason status select_row]. unfold type_of.
  destruct (Qlt_le_dec 50 (product_price p)) as [Hlt|Hle].
  - repeat split; try done;
      try (let H := fresh in intros H; vm_compute in H; discriminate).
    + intros [Hle _]. by apply Qle_not_lt in Hle.
    + intros [Hle _]. by apply Qle_not_lt in Hle.
  - apply Qle_not_lt in Hle as Hnlt.
    destruct (decide (product_category p = lit "Food")) as [Hc|Hc];
      repeat split; try done;
      try (let H := fresh in intros H; vm_compute in H; discriminate);
      naive_solver.
Qed.

Lemma recommendation_rows_classified_witness :
  ∃ row, row ∈ generate Sample.no_conflict Sample.low_draws []
                 Sample.orders Sample.catalogue ∧
         recommendation_type row = lit "cross_sell".
Proof.
  eexists. split; [vm_compute; apply list_elem_of_here|].
  edestruct (recommendation_rows_classified Sample.no_conflict Sample.low_draws []
               Sample.orders Sample.catalogue) as (p & _ & _ & _ & _ & _ & _ & _);
    [vm_compute; apply list_elem_of_here|].
  reflexivity.
Defined.

(** With the first pair held already, three of the four rows are added. *)
Example generate_skips_held_pair :
  (λ row, (order_id row, Recommend.product_id row)) <$>
    generate Sample.unique_pair Sample.low_draws Sample.held
      Sample.orders Sample.catalogue =
  [ (1, 624518273476107074); (2, 850338995742140055); (2, 624518273476107074) ].
Proof. reflexivity. Qed.

End MoreRecommendations.

(** ** Inserting the invoice items *)

Lemma insert_items_fold (returns : nat → bool) products order_map
    (items : list invoice_item) (attempts : list Invoices.params) (n : Z) :
  let res := foldl (λ (st : list Invoices.params * Z) item,
                      match Invoices.attempt products order_map item with
                      | Some ps =>
                          (st.1 ++ [ps],
                           if returns (length st.1) then st.2 + 1 else st.2)
                      | None => st
                      end) (attempts, n) items in
  res.1 = attempts ++ omap (Invoices.attempt products order_map) items ∧
  n ≤ res.2 ≤ n + Z.of_nat (length (omap (Invoices.attempt products order_map) items)).
Proof.
  revert attempts n. induction items as [|item items IH]; intros attempts n;
    cbn [foldl omap list_omap].
  - rewrite app_nil_r. cbn [fst snd length]. split; [done|lia].
  - destruct (Invoices.attempt products order_map item) as [ps|]; [|apply IH].
    cbn [fst snd].
    destruct (IH (attempts ++ [ps])
                (if returns (length attempts) then n + 1 else n)) as [H1 H2].
    cbv zeta. rewrite H1, <-app_assoc. split; [done|].
    cbn [length]. destruct (returns (length attempts)); lia.
Qed.

Lemma omap_length_le {A B} (f : A → option B) (l : list A) :
  (length (omap f l) ≤ length l)%nat.
Proof.
  induction l as [|x l IH]; cbn [omap list_omap length]; [done|].
  destruct (f x); cbn [length]; lia.
Qed.

Lemma attempt_of_collected products order_map item p :
  Dict.get (product_name item) products = Some p →
  Invoices.attempt products order_map item =
  match find_order (invoice_id item) order_map with
  | Some oid =>
      if decide (oid = 0) then None
      else Some (Invoices.Params oid (id p) (product_name item) (quantity item)
                   (unit_price item) (total item) 0)
  | None => None
  end.
Proof.
  intros Hp. unfold Invoices.attempt, Dict.mem. rewrite Hp.
  destruct (find_order _ _) as [oid|]; [|done].
  destruct (decide (oid = 0)) as [->|Hne]; [done|].
  by rewrite (proj2 (Z.eqb_neq oid 0) Hne).
Qed.

(** X15: the INSERTs issued for the invoice items read from a file are, in
    order, those of the items whose invoice identifier finds an order with a
    non-zero id; an item that finds no order, or finds first an order whose
    id is 0, is passed over, and the test that the product is known never
    fails.  Each INSERT carries the id of the first matching order, the id
    of the product of that name and the item's amounts; the count reported
    lies between 0 and the number of INSERTs issued. *)
Theorem invoice_inserts f products (items : list invoice_item) returns order_map :
  read_csv f = Ok (products, items) →
  let res := Invoices.insert_items returns products order_map items in
  res.1 = omap (Invoices.attempt products order_map) items ∧
  0 ≤ res.2 ≤ Z.of_nat (length res.1) ∧
  (length res.1 ≤ length items)%nat ∧
  Forall (λ item,
            ∃ p, Dict.get (product_name item) products = Some p ∧
                 Invoices.attempt products order_map item =
                 match find_order (invoice_id item) order_map with
                 | Some oid =>
                     if decide (oid = 0) then None
                     else Some (Invoices.Params oid (id p) (product_name item)
                                  (quantity item) (unit_price item) (total item) 0)
                 | None => None
                 end) items.
Proof.
  intros Hread res.
  destruct (insert_items_fold returns products order_map items [] 0) as [H1 H2].
  fold (Invoices.insert_items returns products order_map items) in H1, H2.
  fold res in H1, H2. cbn [app] in H1.
  split; [done|]. split; [rewrite H1; lia|]. split.
  { rewrite H1. apply omap_length_le. }
  destruct (invoice_items_recorded _ _ _ Hread) as (_ & Hmem & _).
  eapply Forall_impl; [exact Hmem|]. intros item (_ & _ & Hin).
  unfold Dict.mem in Hin.
  destruct (Dict.get (product_name item) products) as [p|] eqn:Hp; [|done].
  exists p. split; [done|]. by apply attempt_of_collected.
Qed.

Lemma invoice_inserts_witness :
  ∃ products items,
    read_csv Sample.invoices = Ok (products, items) ∧
    (Invoices.insert_items (λ _, true) products Sample.order_numbers items).1 =
    omap (Invoices.attempt products Sample.order_numbers) items.
Proof.
  eexists _, _. split; [vm_compute; reflexivity|].
  eapply proj1, (invoice_inserts Sample.invoices). vm_compute. reflexivity.
Defined.

(** On the sample: the Salt line finds the order with id 0 and is passed
    over; the two rice lines find order 7, the first match, although
    "INV-10" contains "INV-1" just as well. *)
Example invoice_inserts_sample :
  let '(products, items) := try_except (read_csv Sample.invoices) ([], []) in
  (λ ps, (Invoices.order_id ps, Invoices.product_id ps, Invoices.unit_price ps)) <$>
    (Invoices.insert_items (λ _, true) products Sample.order_numbers items).1 =
  [ (7, 850338995742140055, Fin 10); (7, 850338995742140055, Fin 10) ] ∧
  (Invoices.insert_items (λ _, true) products Sample.order_numbers items).2 = 2.
Proof. vm_compute. split; reflexivity. Qed.

(** ** UTF-8 there and back *)

Lemma forall_from_sound fuel c P x :
  Utf8.forall_from fuel c P = true →
  (c ≤ x < c + N.of_nat fuel)%N → P x = true.
Proof.
  revert c. induction fuel as [|fuel IH]; intros c; cbn [Utf8.forall_from]; [lia|].
  destruct (P c) eqn:Hc; [|done]. intros Hall Hx.
  destruct (decide (x = c)) as [->|Hne]; [done|].
  apply (IH (N.succ c)); [done|lia].
Qed.

Lemma reads_back_below : Utf8.forall_from (N.to_nat 0x110000) 0%N Utf8.reads_back = true.
Proof. vm_compute. reflexivity. Qed.

Lemma reads_back_all c : Utf8.reads_back c = true.
Proof.
  destruct (decide (c < 0x110000)%N) as [Hlt|Hge].
  - apply (forall_from_sound _ _ _ _ reads_back_below). rewrite N2Nat.id. lia.
  - unfold Utf8.reads_back, Str.encode_point, Str.scalar.
    destruct (Z.ltb_spec (Z.of_N c) 0x80); [lia|].
    destruct (Z.ltb_spec (Z.of_N c) 0x800); [lia|].
    destruct (Z.ltb_spec (Z.of_N c) 0x10000); [lia|].
    destruct (Z.ltb_spec (Z.of_N c) 0x110000); [lia|].
    destruct (N.ltb_spec c 0x110000); [lia|]. by rewrite andb_false_r.
Qed.

Lemma encode_point_reads_back c bs :
  Str.encode_point c = Ok bs →
  Str.scalar c = true ∧ Forall byte bs ∧ (1 ≤ length bs ≤ 4)%nat ∧
  Utf8.decode_point bs = Some (c, []).
Proof.
  intros Henc. pose proof (reads_back_all c) as H.
  unfold Utf8.reads_back in H. rewrite Henc in H.
  apply andb_true_iff in H as [H Hdec]. apply andb_true_iff in H as [H H4].
  apply andb_true_iff in H as [H H1]. apply andb_true_iff in H as [Hs Hb].
  split; [done|]. split.
  { apply Forall_forall. intros b Hin.
    rewrite forallb_forall in Hb. specialize (Hb b (proj1 (list_elem_of_In _ _) Hin)).
    unfold byte. lia. }
  split; [apply Nat.leb_le in H1, H4; lia|].
  destruct (Utf8.decode_point bs) as [[c' [|??]]|]; try done.
  by apply N.eqb_eq in Hdec as <-.
Qed.

Lemma decode_point_app bs c r rest :
  Utf8.decode_point bs = Some (c, r) →
  Utf8.decode_point (bs ++ rest) = Some (c, r ++ rest).
Proof.
  unfold Utf8.decode_point.
  destruct bs as [|b0 [|b1 [|b2 [|b3 t]]]]; cbn [app];
    repeat (case_match; try done); by intros [= <- <-].
Qed.

Lemma encode_cons c s :
  Str.encode (c :: s) =
  match Str.encode_point c, Str.encode s with
  | Ok b, Ok bs => Ok (b ++ bs)
  | Raise e, _ | Ok _, Raise e => Raise e
  end.
Proof. cbn [Str.encode]. destruct (Str.encode_point c); [|done]. by destruct (Str.encode s). Qed.

Lemma encode_reads_back s bs :
  Str.encode s = Ok bs →
  Str.decoded s = true ∧ Forall byte bs ∧
  (length s ≤ length bs ≤ 4 * length s)%nat ∧
  ∀ fuel, (length s ≤ fuel)%nat → Utf8.decode_from fuel bs = Some s.
Proof.
  revert bs. induction s as [|c s IH]; intros bs.
  { intros [= <-]. repeat split; try done. by intros []. }
  rewrite encode_cons.
  destruct (Str.encode_point c) as [b|] eqn:Hc; [|done].
  destruct (Str.encode s) as [bs'|] eqn:Hs; [|done]. intros [= <-].
  destruct (encode_point_reads_back _ _ Hc) as (Hsc & Hb & Hlen & Hdec).
  destruct (IH _ eq_refl) as (Hd & Hbs & Hl & Hrec).
  split; [cbn; by rewrite Hsc|]. split; [by apply Forall_app|].
  split; [rewrite length_app; cbn [length]; lia|].
  intros fuel Hfuel. destruct fuel as [|fuel]; [cbn in Hfuel; lia|].
  destruct b as [|b0 b]; [cbn in Hlen; lia|].
  cbn [app Utf8.decode_from]. change (b0 :: b ++ bs') with ((b0 :: b) ++ bs').
  rewrite (decode_point_app _ _ _ bs' Hdec). cbn [app].
  rewrite Hrec by (cbn in Hfuel; lia). done.
Qed.

(** X16: a name that [encode] accepts consists of Unicode scalar values,
    and its encoding is a sequence of bytes, one to four for each code
    point, that decodes to the name again; so two different names are never
    hashed from the same bytes. *)
Theorem utf8_round_trip :
  (∀ s bs, Str.encode s = Ok bs →
     Str.decoded s = true ∧ Forall byte bs ∧
     (length s ≤ length bs ≤ 4 * length s)%nat ∧
     Utf8.decode bs = Some s) ∧
  (∀ a b bs, Str.encode a = Ok bs → Str.encode b = Ok bs → a = b).
Proof.
  assert (∀ s bs, Str.encode s = Ok bs → Utf8.decode bs = Some s) as Hdec.
  { intros s bs Henc. destruct (encode_reads_back _ _ Henc) as (_ & _ & Hlen & H).
    apply H. lia. }
  split.
  - intros s bs Henc. destruct (encode_reads_back _ _ Henc) as (? & ? & ? & _).
    auto.
  - intros a b bs Ha%Hdec Hb%Hdec. congruence.
Qed.

Example utf8_round_trip_sample :
  Utf8.decode [195; 169; 226; 130; 172; 240; 159; 152; 128] =
    Some [0xE9; 0x20AC; 0x1F600]%N ∧
  Utf8.decode [0xC0; 0x80] = None ∧
  Utf8.decode [0xED; 0xA0; 0x80] = None.
Proof. repeat split; reflexivity. Qed.

(** ** What the reader yields can be encoded *)

Lemma lor_bound a b n :
  0 ≤ n → 0 ≤ a < 2 ^ n → 0 ≤ b < 2 ^ n → 0 ≤ Z.lor a b < 2 ^ n.
Proof.
  intros Hn Ha Hb. split; [apply Z.lor_nonneg; lia|].
  destruct (decide (Z.lor a b = 0)) as [->|Hne]; [lia|].
  assert (0 < Z.lor a b) by (pose proof (proj2 (Z.lor_nonneg a b)); lia).
  assert (0 < n).
  { destruct (decide (n = 0)) as [->|]; [|lia].
    assert (a = 0) as -> by lia. assert (b = 0) as -> by lia. done. }
  assert (∀ x, 0 ≤ x < 2 ^ n → Z.log2 x < n) as Hlog.
  { intros x Hx. destruct (decide (x = 0)) as [->|]; [done|].
    apply Z.log2_lt_pow2; lia. }
  apply Z.log2_lt_pow2; [done|]. rewrite Z.log2_lor by lia.
  apply Z.max_lub_lt; auto.
Qed.

Lemma land_ones_bound b k : 0 ≤ k → 0 ≤ Z.land b (Z.ones k) < 2 ^ k.
Proof. intros Hk. rewrite Z.land_ones by done. apply Z.mod_pos_bound. lia. Qed.

Lemma shiftl_bound x k n :
  0 ≤ k → 0 ≤ n → 0 ≤ x < 2 ^ n → 0 ≤ Z.shiftl x k < 2 ^ (n + k).
Proof.
  intros Hk Hn Hx. rewrite Z.shiftl_mul_pow2, Z.pow_add_r by done.
  assert (0 < 2 ^ k) by lia. nia.
Qed.

Lemma scalar_of_Z z :
  0 ≤ z < 0x110000 → ¬ (0xD800 ≤ z ≤ 0xDFFF) → Str.scalar (Z.to_N z) = true.
Proof.
  intros Hz Hs. unfold Str.scalar. apply andb_true_iff. split.
  - apply orb_true_iff. destruct (decide (z < 0xD800)).
    + left. apply N.ltb_lt. lia.
    + right. apply N.ltb_lt. lia.
  - apply N.ltb_lt. lia.
Qed.

Lemma decode_point_scalar bs c r :
  Utf8.decode_point bs = Some (c, r) →
  Str.scalar c = true ∧ (length r < length bs)%nat.
Proof.
  unfold Utf8.decode_point. destruct bs as [|b0 t]; [done|].
  destruct (Z.ltb_spec b0 0x80).
  { destruct (Z.leb_spec 0 b0); [|done]. intros [= <- <-].
    split; [apply scalar_of_Z; lia|cbn; lia]. }
  destruct (_ && _).
  { destruct t as [|b1 t']; [done|]. destruct (Utf8.continuation b1); [|done].
    intros [= <- <-]. split; [|cbn; lia].
    pose proof (land_ones_bound b0 5 ltac:(lia)) as H0.
    pose proof (land_ones_bound b1 6 ltac:(lia)) as H1.
    change (Z.ones 5) with 0x1F in H0. change (Z.ones 6) with 0x3F in H1.
    pose proof (shiftl_bound _ 6 5 ltac:(lia) ltac:(lia) H0) as H2.
    pose proof (lor_bound (Z.shiftl (Z.land b0 0x1F) 6) (Z.land b1 0x3F) 11
                  ltac:(lia) ltac:(lia) ltac:(lia)) as H3.
    apply scalar_of_Z; lia. }
  destruct (_ && _).
  { destruct t as [|b1 [|b2 t']]; [done..|]. cbv zeta.
    set (c0 := Z.lor _ _).
    destruct (_ && _ && (0x800 <=? c0) && _) eqn:Hok; [|done].
    intros [= <- <-]. split; [|cbn; lia].
    apply andb_true_iff in Hok as [Hok Hsur]. apply andb_true_iff in Hok as [_ Hlow].
    pose proof (land_ones_bound b0 4 ltac:(lia)) as H0.
    pose proof (land_ones_bound b1 6 ltac:(lia)) as H1.
    pose proof (land_ones_bound b2 6 ltac:(lia)) as H2.
    change (Z.ones 4) with 0x0F in H0. change (Z.ones 6) with 0x3F in H1, H2.
    pose proof (shiftl_bound _ 12 4 ltac:(lia) ltac:(lia) H0) as H3.
    pose proof (shiftl_bound _ 6 6 ltac:(lia) ltac:(lia) H1) as H4.
    pose proof (lor_bound (Z.shiftl (Z.land b1 0x3F) 6) (Z.land b2 0x3F) 16
                  ltac:(lia) ltac:(lia) ltac:(lia)) as H5.
    pose proof (lor_bound (Z.shiftl (Z.land b0 0x0F) 12)
                  (Z.lor (Z.shiftl (Z.land b1 0x3F) 6) (Z.land b2 0x3F)) 16
                  ltac:(lia) ltac:(lia) ltac:(lia)) as H6.
    fold c0 in H6. apply scalar_of_Z; [lia|].
    apply negb_true_iff, andb_false_iff in Hsur. lia. }
  destruct (_ && _); [|done].
  destruct t as [|b1 [|b2 [|b3 t']]]; [done..|]. cbv zeta.
  set (c0 := Z.lor _ _).
  destruct (_ && _ && _ && (0x10000 <=? c0) && (c0 <=? 0x10FFFF)) eqn:Hok; [|done].
  intros [= <- <-]. split; [|cbn; lia].
  apply andb_true_iff in Hok as [Hok Hhigh]. apply andb_true_iff in Hok as [_ Hlow].
  apply scalar_of_Z; lia.
Qed.

Lemma decode_from_decoded fuel bs s :
  Utf8.decode_from fuel bs = Some s → Str.decoded s = true.
Proof.
  revert bs s. induction fuel as [|fuel IH]; intros [|b0 bs] s; cbn [Utf8.decode_from];
    try done; try by intros [= <-].
  destruct (Utf8.decode_point (b0 :: bs)) as [[c rest]|] eqn:Hc; [|done].
  destruct (Utf8.decode_from fuel rest) as [s'|] eqn:Hs; [|done].
  intros [= <-]. cbn. apply decode_point_scalar in Hc as [-> _]. eauto.
Qed.

(** X17: every text the reader decodes from the bytes of the file consists
    of Unicode scalar values, so that [encode] accepts it and both
    identifiers exist for it: reading a name and hashing it never raises
    [UnicodeEncodeError]. *)
Theorem decoded_text_has_ids bs s :
  Utf8.decode bs = Some s →
  Str.decoded s = true ∧
  (∃ bytes, Str.encode s = Ok bytes) ∧
  (∃ p, product_id s = Ok p) ∧ (∃ i, store_id s = Ok i).
Proof.
  intros Hd%decode_from_decoded. split; [done|].
  split; [by apply encode_decoded|].
  destruct (ids_of_decoded s Hd) as (h & _ & Hp & Hs). eauto.
Qed.

Lemma decoded_text_has_ids_witness :
  Utf8.decode [195; 169; 226; 130; 172] = Some [0xE9; 0x20AC]%N ∧
  ∃ p, product_id [0xE9; 0x20AC]%N = Ok p.
Proof.
  split; [reflexivity|].
  apply (decoded_text_has_ids [195; 169; 226; 130; 172] [0xE9; 0x20AC]%N eq_refl).
Defined.

(** ** The category *)

Lemma lower_lower s : Str.lower (Str.lower s) = Str.lower s.
Proof.
  unfold Str.lower. rewrite <-list_fmap_compose. apply list_fmap_ext.
  intros _ c _. cbn.
  destruct ((0x41 <=? c)%N && (c <=? 0x5A)%N) eqn:Hc; [|by rewrite Hc].
  apply andb_true_iff in Hc as [H1%N.leb_le H2%N.leb_le].
  destruct (N.leb_spec (c + 0x20) 0x5A); [lia|]. by rewrite andb_false_r.
Qed.

(** X18: the category of an item is "Food" exactly when its name, with the
    ASCII letters lower-cased, contains one of "rice", "dal", "flour", "oil"
    and "spice" anywhere, inside a longer word too, and "Grocery"
    otherwise; two names that differ only in the case of ASCII letters have
    the same category. *)
Theorem category_by_keyword :
  (∀ n, category_of n = lit "Food" ↔
        ∃ kw, kw ∈ [lit "rice"; lit "dal"; lit "flour"; lit "oil"; lit "spice"] ∧
              Str.substring kw (Str.lower n)) ∧
  (∀ n, category_of n ≠ lit "Food" → category_of n = lit "Grocery") ∧
  (∀ n, category_of (Str.lower n) = category_of n) ∧
  (∀ n m, Str.lower n = Str.lower m → category_of n = category_of m).
Proof.
  split; [|split; [|split]].
  - intros n. unfold category_of.
    destruct (existsb _ _) eqn:Hex.
    + split; [intros _|done]. apply existsb_exists in Hex as (kw & Hin & Hkw).
      exists kw. split; [by apply list_elem_of_In|by apply contains_spec].
    + split; [intros H; vm_compute in H; discriminate|].
      intros (kw & Hin & Hkw). apply contains_spec in Hkw.
      assert (existsb (λ x, Str.contains x (Str.lower n))
                [lit "rice"; lit "dal"; lit "flour"; lit "oil"; lit "spice"] = true)
        as Htrue; [|congruence].
      apply existsb_exists. exists kw. split; [by apply list_elem_of_In|done].
  - intros n Hn. by destruct (category_of_cases n).
  - intros n. unfold category_of. by rewrite lower_lower.
  - intros n m Heq. unfold category_of. by rewrite Heq.
Qed.

(** A price list is food, and so is rice in capitals. *)
Example category_samples :
  category_of (lit "Price List") = lit "Food" ∧
  category_of (lit "BASMATI RICE") = lit "Food" ∧
  category_of (lit "Salt") = lit "Grocery".
Proof. repeat split; reflexivity. Qed.
